(** * Snake game environment (snake_game_gym/envs/snake_game.py)

    A shallow embedding of [SnakeGameEnv]: the attributes of [self] become a
    record, the methods that read or mutate [self], draw random numbers, log
    or raise become computations of a small state-and-exception monad, and
    the helpers that only compute on their arguments ([rotate], the turning
    transform, the bodies of the loops) become plain functions.

    Scope of the model.
    - Integers are Python integers, hence [Z]; list indices are [nat].
    - A body piece is the two-element list [[row, col]], modelled as a pair.
      Every piece stored in [self.snake] is a fresh object (a literal in
      [initial_parts], a [.copy()] in [move_snake] and [check_if_ate_apple]),
      so no two pieces alias and the in-place head update touches one piece
      only; pieces are therefore compared and stored by value.
    - [random.randint] reads an arbitrary stream of raw integers, reduced to
      the requested range; the position in the stream is part of the state.
    - The environment has been [reset] at least once (before that every
      attribute is [None]).
    - Rewards are the float constants [0.0], [1.0] and [10.0]; they are kept
      as the integers they denote.
    - pygame is outside the program: [render] and [close] are modelled by
      the calls they make to it, in order, with the arguments they pass. *)

From Stdlib Require Import ZArith Lia.
From stdpp Require Import base tactics option list strings gmap.

(** ** Data model *)

(** A piece [[row, col]]. *)
Definition Position : Type := (Z * Z)%type.

(** The attributes of [self] that the simulation reads and writes. *)
Record World := mkWorld {
  snake : list Position;
  apple : Position;
  global_snake_direction : Z;
  state : list Z
}.

Definition set_snake (s : list Position) (w : World) : World :=
  mkWorld s (apple w) (global_snake_direction w) (state w).
Definition set_apple (a : Position) (w : World) : World :=
  mkWorld (snake w) a (global_snake_direction w) (state w).
Definition set_direction (d : Z) (w : World) : World :=
  mkWorld (snake w) (apple w) d (state w).
Definition set_state (o : list Z) (w : World) : World :=
  mkWorld (snake w) (apple w) (global_snake_direction w) o.

(** What [gym.logger] receives. *)
Inductive diagnostic :=
| Warn_step_after_done.

(** Everything a call can change: the object, the position in the random
    stream and the log. *)
Record Store := mkStore {
  self : World;
  cursor : nat;
  log : list diagnostic
}.

Definition with_self (f : World -> World) (st : Store) : Store :=
  mkStore (f (self st)) (cursor st) (log st).

(** ** Effects *)

Inductive fault :=
| AssertionError
| IndexError.

(** A call returns, raises, or is still running when the fuel is spent. *)
Inductive outcome (A : Type) :=
| Returned (a : A)
| Raised (f : fault)
| OutOfFuel.
Arguments Returned {A} a.
Arguments Raised {A} f.
Arguments OutOfFuel {A}.

Definition M (A : Type) : Type := Store -> outcome A * Store.

Definition ret {A} (a : A) : M A := fun st => (Returned a, st).

Definition bind {A B} (m : M A) (k : A -> M B) : M B :=
  fun st =>
    match m st with
    | (Returned a, st') => k a st'
    | (Raised f, st') => (Raised f, st')
    | (OutOfFuel, st') => (OutOfFuel, st')
    end.

Definition raise {A} (f : fault) : M A := fun st => (Raised f, st).
Definition out_of_fuel {A} : M A := fun st => (OutOfFuel, st).
Definition get_self : M World := fun st => (Returned (self st), st).
Definition modify_self (f : World -> World) : M unit :=
  fun st => (Returned tt, with_self f st).

Declare Scope py_scope.
Delimit Scope py_scope with py.
Notation "x <- m ;; k" := (bind m (fun x => k))
  (at level 100, m at next level, right associativity) : py_scope.
Notation "m ;;; k" := (bind m (fun _ => k))
  (at level 100, right associativity) : py_scope.
Local Open Scope py_scope.

(** What a Python expression evaluates to where the source relies on it:
    a function without [return] yields [None]. *)
Inductive pyvalue :=
| PyNone
| PyBool (b : bool).

(** Truth value used by [if]. *)
Definition truthy (v : pyvalue) : bool :=
  match v with
  | PyNone => false
  | PyBool b => b
  end.

(** [spaces.Discrete(n).contains(x)] on an integer [x]. *)
Definition Discrete_contains (n x : Z) : bool :=
  bool_decide (0 <= x)%Z && bool_decide (x < n)%Z.

(** [assert cond, msg] *)
Definition py_assert (cond : bool) : M unit :=
  if cond then ret tt else raise AssertionError.

(** [logger.warn(...)] *)
Definition logger_warn (d : diagnostic) : M unit :=
  fun st => (Returned tt, mkStore (self st) (cursor st) (log st ++ [d])).

(** ** Direction mapper *)

Section Direction.
Local Open Scope Z_scope.

Definition relative_to_global_direction (global_direction relative_direction : Z) : Z :=
  if decide (relative_direction = 0) then
    let global_direction := global_direction + 1 in
    if decide (global_direction = 5) then 0 else global_direction
  else if decide (relative_direction = 2) then
    let global_direction := global_direction - 1 in
    if decide (global_direction = -1) then 4 else global_direction
  else global_direction.

End Direction.

(** ** Movement *)

(** Body of the loop of [move_snake] at index [i] (always within
    [1 .. len - 1] there; outside the list Python would raise). *)
Definition move_piece (i : nat) (s : list Position) : list Position :=
  match s !! i, s !! (i - 1)%nat with
  | Some p, Some q => if decide (p <> q) then <[i := q]> s else s
  | _, _ => s
  end.

(** [for i in range(i, 0, -1)] *)
Fixpoint shift_from (i : nat) (s : list Position) : list Position :=
  match i with
  | O => s
  | S j => shift_from j (move_piece (S j) s)
  end.

(** The in-place update of the head piece. *)
Definition move_head (d : Z) (p : Position) : Position :=
  if decide (d = 0)%Z then (p.1 - 1, p.2)%Z
  else if decide (d = 1)%Z then (p.1, p.2 + 1)%Z
  else if decide (d = 2)%Z then (p.1 + 1, p.2)%Z
  else (p.1, p.2 - 1)%Z.

Definition move_snake : M unit :=
  w <- get_self ;;
  match shift_from (length (snake w) - 1) (snake w) with
  | [] => raise IndexError
  | hd :: tl => modify_self (set_snake (move_head (global_snake_direction w) hd :: tl))
  end.

(** ** Growth and respawn *)

Section Simulation.

(** The raw stream behind [random]: [rng k] is the [k]-th raw draw. *)
Variable rng : nat -> Z.

Local Open Scope Z_scope.

(** [random.randint(lo, hi)], both ends included. *)
Definition randint (lo hi : Z) : M Z :=
  fun st =>
    (Returned (lo + rng (cursor st) mod (hi - lo + 1))%Z,
     mkStore (self st) (S (cursor st)) (log st)).

Definition generate_new_random_apple : M unit :=
  r <- randint 0 14 ;;
  c <- randint 0 14 ;;
  modify_self (set_apple (r, c)).

(** [self.snake.append(self.snake[-1].copy())] *)
Definition append_last_copy : M unit :=
  w <- get_self ;;
  match last (snake w) with
  | None => raise IndexError
  | Some t => modify_self (set_snake (snake w ++ [t]))
  end.

(** [for piece in self.snake: ...] with the iterator at index [i]. The
    iterator reads the list as it is when it is asked for the next piece, so
    pieces appended by the body are visited too, and each visit compares
    with the apple of that moment. *)
Fixpoint ate_loop (fuel i : nat) : M unit :=
  match fuel with
  | O => out_of_fuel
  | S fuel' =>
    w <- get_self ;;
    match snake w !! i with
    | None => ret tt
    | Some piece =>
      (if decide (piece = apple w)
       then append_last_copy ;;; generate_new_random_apple
       else ret tt) ;;;
      ate_loop fuel' (S i)
    end
  end.

(** No [return] in the source: the call evaluates to [None]. *)
Definition check_if_ate_apple (fuel : nat) : M pyvalue :=
  ate_loop fuel 0 ;;; ret PyNone.

(** ** Collision and win *)

Definition x_size : Z := 15.
Definition y_size : Z := 15.

(** [self.snake[0]] *)
Definition head_piece : M Position :=
  w <- get_self ;;
  match snake w with
  | [] => raise IndexError
  | hd :: _ => ret hd
  end.

Definition check_if_hit_wall : M bool :=
  hd <- head_piece ;;
  let head_x := hd.1 in
  let head_y := hd.2 in
  ret (if decide (head_x > 14)%Z then true
       else if decide (head_y > 14)%Z then true
       else if decide (head_x < 0)%Z then true
       else if decide (head_y < 0)%Z then true
       else false).

Definition check_if_hit_itself : M bool :=
  hd <- head_piece ;;
  w <- get_self ;;
  ret (if decide (hd ∈ drop 1 (snake w)) then true else false).

Definition check_if_won : M bool :=
  w <- get_self ;;
  ret (if decide (Z.of_nat (length (snake w)) = x_size * y_size)%Z then true else false).

(** ** Sensors *)

(** The loop shared by the three ray methods: [for distance in range(15)]
    with [more] iterations left after the current one; the loop variable
    keeps its last value when the loop ends without [break]. *)
Fixpoint ray_loop (hit : Position -> bool) (more : nat) (distance : Z)
    (ray_position : Position) (y_behaviour x_behaviour : Z) : Z :=
  let ray_position := (ray_position.1 + y_behaviour, ray_position.2 + x_behaviour)%Z in
  if hit ray_position then distance
  else match more with
       | O => distance
       | S more' => ray_loop hit more' (distance + 1)%Z ray_position y_behaviour x_behaviour
       end.

Definition apple_ray (obs : list Z) (y_behaviour x_behaviour : Z) : M (list Z) :=
  ray_position <- head_piece ;;
  w <- get_self ;;
  ret (obs ++ [ray_loop (fun p => bool_decide (p = apple w)) 14 0
                 ray_position y_behaviour x_behaviour]).

Definition wall_ray (obs : list Z) (y_behaviour x_behaviour : Z) : M (list Z) :=
  ray_position <- head_piece ;;
  ret (obs ++ [ray_loop (fun p => bool_decide (p.1 < 0 \/ p.1 > 14 \/ p.2 < 0 \/ p.2 > 14)%Z)
                 14 0 ray_position y_behaviour x_behaviour]).

Definition snake_piece_ray (obs : list Z) (y_behaviour x_behaviour : Z) : M (list Z) :=
  ray_position <- head_piece ;;
  w <- get_self ;;
  ret (obs ++ [ray_loop (fun p => bool_decide (p ∈ drop 1 (snake w))) 14 0
                 ray_position y_behaviour x_behaviour]).

(** [l[-n:] + l[:-n]] for [n > 0]: the slice bounds are clamped to the list. *)
Definition rotate (l : list Z) (n : nat) : list Z :=
  drop (length l - n)%nat l ++ take (length l - n)%nat l.

Definition rotate_obs (obs : list Z) : M (list Z) :=
  w <- get_self ;;
  if decide (global_snake_direction w = 0) then ret obs
  else if decide (global_snake_direction w = 1) then ret (rotate obs 2)
  else if decide (global_snake_direction w = 2) then ret (rotate obs 4)
  else ret (rotate obs 6).

(** The eight calls of a [..._ray_observation] method, in source order. *)
Definition eight_rays (ray : list Z -> Z -> Z -> M (list Z)) : M (list Z) :=
  let obs := [] in
  obs <- ray obs (-1) 0 ;;
  obs <- ray obs (-1) 1 ;;
  obs <- ray obs 0 1 ;;
  obs <- ray obs 1 1 ;;
  obs <- ray obs 1 0 ;;
  obs <- ray obs 1 (-1) ;;
  obs <- ray obs 0 (-1) ;;
  obs <- ray obs (-1) (-1) ;;
  rotate_obs obs.

Definition apple_ray_observation : M (list Z) := eight_rays apple_ray.
Definition wall_ray_observation : M (list Z) := eight_rays wall_ray.
Definition snake_piece_ray_observation : M (list Z) := eight_rays snake_piece_ray.

Definition generate_state : M unit :=
  w <- get_self ;;
  let new_state := [Z.of_nat (length (snake w))] in
  a <- apple_ray_observation ;;
  let new_state := new_state ++ a in
  b <- wall_ray_observation ;;
  let new_state := new_state ++ b in
  c <- snake_piece_ray_observation ;;
  let new_state := new_state ++ c in
  modify_self (set_state new_state).

(** ** Episode controller *)

(** What [step] returns: observation, reward, done (the info dictionary is
    always empty). *)
Record StepResult := mkStepResult {
  observation : list Z;
  reward : Z;
  done : bool
}.

Definition step (fuel : nat) (action : Z) : M StepResult :=
  py_assert (Discrete_contains 3 action) ;;;
  w <- get_self ;;
  modify_self (set_direction
    (relative_to_global_direction (global_snake_direction w) action)) ;;;
  move_snake ;;;
  ate_apple <- check_if_ate_apple fuel ;;
  hit_wall <- check_if_hit_wall ;;
  died <- (if hit_wall then ret true else check_if_hit_itself) ;;
  won <- check_if_won ;;
  generate_state ;;;
  let done := died || won in
  let reward :=
    if negb done then (if truthy ate_apple then 10%Z else 1%Z) else 0%Z in
  (if done then logger_warn Warn_step_after_done else ret tt) ;;;
  w <- get_self ;;
  ret (mkStepResult (state w) reward done).

Definition initial_parts : M unit :=
  modify_self (set_snake [(7, 4); (7, 3)]%Z) ;;;
  modify_self (set_apple (7, 11)%Z).

Definition reset : M (list Z) :=
  initial_parts ;;;
  modify_self (set_direction 1) ;;;
  generate_state ;;;
  w <- get_self ;;
  ret (state w).

(** A caller that steps through a list of actions and collects what each
    call gave; it stops at the first call that does not return. *)
Fixpoint run (fuel : nat) (actions : list Z) : M (list StepResult) :=
  match actions with
  | [] => ret []
  | a :: rest =>
    r <- step fuel a ;;
    rs <- run fuel rest ;;
    ret (r :: rs)
  end.

End Simulation.

(** A store to run [reset] on: [reset] overwrites every attribute, so what
    it holds does not matter. (Before the first [reset] the attributes of the
    object are [None]; that state is outside this model.) *)
Definition blank : Store :=
  mkStore (mkWorld [] (0, 0)%Z 0 []) 0 [].


(** ** Derived notions used in the statements *)

(** The apple [generate_new_random_apple] installs when the stream is at
    position [c]: the row is drawn first, then the column. *)
Definition drawn_apple (rng : nat -> Z) (c : nat) : Position :=
  ((0 + rng c mod (14 - 0 + 1))%Z, (0 + rng (S c) mod (14 - 0 + 1))%Z).

(** The store after one growth: a copy [t] of the last piece appended, the
    apple respawned, two draws consumed. *)
Definition grown (rng : nat -> Z) (t : Position) (st : Store) : Store :=
  mkStore
    (set_apple (drawn_apple rng (cursor st))
       (set_snake (snake (self st) ++ [t]) (self st)))
    (S (S (cursor st))) (log st).

(** The eight ray offsets [(y_behaviour, x_behaviour)] in the order the
    [..._ray_observation] methods cast them: up first, then clockwise. *)
Definition ray_offsets : list Position :=
  [(-1, 0); (-1, 1); (0, 1); (1, 1); (1, 0); (1, -1); (0, -1); (-1, -1)]%Z.

(** The displacement [move_snake] gives the head under a heading. *)
Definition forward_offset (d : Z) : Position := move_head d (0, 0)%Z.

(** The three terminal conditions on a body with head [hd] and rest [tl]. *)
Definition wall_collision (hd : Position) : Prop :=
  (hd.1 < 0 \/ hd.1 > 14 \/ hd.2 < 0 \/ hd.2 > 14)%Z.
Definition self_collision (hd : Position) (tl : list Position) : Prop :=
  hd ∈ tl.
Definition win (body : list Position) : Prop :=
  length body = 225.

(** Streams for the scenarios: every respawn at (0, 0); or the first [n]
    respawns at (7, 10) and the later ones at (0, 0). *)
Definition far_rng : nat -> Z := fun _ => 0%Z.
Definition tail_rng (n : nat) : nat -> Z :=
  fun k => if k <? 2 * n then (if Nat.even k then 7%Z else 10%Z) else 0%Z.

(** The store a caller reaches from a fresh environment by [reset] followed
    by the given steps. *)
Definition play (rng : nat -> Z) (fuel : nat) (actions : list Z) : Store :=
  snd ((reset ;;; run rng fuel actions) blank).

(** The growth claim in its strongest reading: whenever some piece equals
    the apple, a returning growth-and-spawn phase leaves the body exactly one
    piece longer, whatever the stream gives. *)
Definition growth_adds_exactly_one : Prop :=
  forall (rng : nat -> Z) (fuel : nat) (st st' : Store) (v : pyvalue),
    apple (self st) ∈ snake (self st) ->
    check_if_ate_apple rng fuel st = (Returned v, st') ->
    length (snake (self st')) = length (snake (self st)) + 1.

(** A body whose head has just reached the apple. *)
Definition head_on_apple : Store :=
  mkStore (mkWorld [(7, 11); (7, 10)]%Z (7, 11)%Z 1 []) 0 [].

(** A ray value lies within the range of the loop variable. *)
Definition in_ray_range (v : Z) : Prop := (0 <= v <= 14)%Z.

(** A ray method that, on store [st], returns with one in-range value
    appended and leaves the store alone. *)
Definition ray_ok (ray : list Z -> Z -> Z -> M (list Z)) (st : Store) : Prop :=
  forall obs y_behaviour x_behaviour,
    exists v, ray obs y_behaviour x_behaviour st = (Returned (obs ++ [v]), st) /\
              in_ray_range v.

(** Straight ahead from [reset] up to the tile before the apple, and the
    step that takes the apple. *)
Definition approach : list Z := [1; 1; 1; 1; 1; 1]%Z.

(** From [reset]: straight onto the apple, then up, right, down and left,
    which brings the head back onto the body. *)
Definition collision_actions : list Z := [1; 1; 1; 1; 1; 1; 1; 2; 0; 0; 0]%Z.

(** The body [move_snake] leaves behind under heading [d] (the empty body,
    on which it raises, is left as it is). *)
Definition advanced (d : Z) (body : list Position) : list Position :=
  match shift_from (length body - 1) body with
  | [] => []
  | hd :: tl => move_head d hd :: tl
  end.

(** ** Notions for the invariants *)

(** The five heading codes the turning transform cycles through. *)
Definition heading_code (d : Z) : Prop := (0 <= d <= 4)%Z.

(** A tile of the 15 x 15 grid. *)
Definition in_grid (p : Position) : Prop :=
  (0 <= p.1 <= 14)%Z /\ (0 <= p.2 <= 14)%Z.

(** Distance in tiles along the two axes. *)
Definition manhattan (p q : Position) : Z :=
  (Z.abs (p.1 - q.1) + Z.abs (p.2 - q.2))%Z.

(** A body in one piece: each piece is on the tile of the piece before it
    or on a tile next to it. *)
Definition chain (body : list Position) : Prop :=
  forall i p q, body !! i = Some p -> body !! S i = Some q ->
                (manhattan p q <= 1)%Z.

(** A quarter turn of an offset [(dy, dx)], rows growing downwards. *)
Definition clockwise (o : Position) : Position := (o.2, - o.1)%Z.
Definition counterclockwise (o : Position) : Position := (- o.2, o.1)%Z.

(** The tile [k] steps from [hd] along the offset [(y, x)]. *)
Definition ray_tile (hd : Position) (y x k : Z) : Position :=
  (hd.1 + k * y, hd.2 + k * x)%Z.

(** A stream that draws the tile [t] at every respawn from position [c] on. *)
Definition always_draws (rng : nat -> Z) (c : nat) (t : Position) : Prop :=
  forall n, drawn_apple rng (c + 2 * n) = t.

(** The stream whose respawns all land on (7, 10). *)
Definition stuck_rng : nat -> Z :=
  fun k => if Nat.even k then 7%Z else 10%Z.

(** The head is off the grid on the side the heading points to. *)
Definition left_through (d : Z) (hd : Position) : Prop :=
  (d = 0 /\ hd.1 < 0)%Z \/ (d = 1 /\ hd.2 > 14)%Z \/
  (d = 2 /\ hd.1 > 14)%Z \/ ((d = 3 \/ d = 4)%Z /\ hd.2 < 0)%Z.

(** How far a ray can go along one axis before it leaves the grid: from
    coordinate [c] with step [y] (no limit, hence the cap 14, when the ray
    does not move along that axis). *)
Definition room (y c : Z) : Z :=
  if decide (y = -1)%Z then c
  else if decide (y = 1)%Z then (14 - c)%Z
  else 14%Z.

(** ** The observation in closed form *)

(** What each kind of ray looks for. *)
Definition apple_hit (w : World) : Position -> bool :=
  fun p => bool_decide (p = apple w).
Definition wall_hit : Position -> bool :=
  fun p => bool_decide (p.1 < 0 \/ p.1 > 14 \/ p.2 < 0 \/ p.2 > 14)%Z.
Definition piece_hit (w : World) : Position -> bool :=
  fun p => bool_decide (p ∈ drop 1 (snake w)).

(** One ray from [hd] along the offset [o]. *)
Definition cast (hit : Position -> bool) (hd o : Position) : Z :=
  ray_loop hit 14 0 hd o.1 o.2.

(** The rotation [rotate_obs] applies under heading [d]. *)
Definition rotate_for (d : Z) (obs : list Z) : list Z :=
  if decide (d = 0)%Z then obs
  else if decide (d = 1)%Z then rotate obs 2
  else if decide (d = 2)%Z then rotate obs 4
  else rotate obs 6.

(** One channel: the eight rays in casting order, rotated. *)
Definition sense (hit : Position -> bool) (d : Z) (hd : Position) : list Z :=
  rotate_for d (map (cast hit hd) ray_offsets).

(** The whole vector for a world whose head is [hd]. *)
Definition observe (w : World) (hd : Position) : list Z :=
  Z.of_nat (length (snake w))
    :: sense (apple_hit w) (global_snake_direction w) hd
    ++ sense wall_hit (global_snake_direction w) hd
    ++ sense (piece_hit w) (global_snake_direction w) hd.

(** ** Rendering *)

(** The values of the class attribute [metadata]. *)
Inductive metadata_value :=
| Meta_modes (modes : list string)
| Meta_int (n : Z).

Definition metadata : gmap string metadata_value :=
  {[ "render.modes"%string := Meta_modes ["human"%string; "rgb_array"%string];
     "video.frames_per_second"%string := Meta_int 10 ]}.

(** The colours passed to pygame: (0, 0, 0), (0, 255, 0), (255, 0, 0). *)
Inductive colour :=
| Black
| Green
| Red.

(** [pygame.Rect(left, top, width, height)] *)
Record Rect := mkRect {
  rect_left : Z;
  rect_top : Z;
  rect_width : Z;
  rect_height : Z
}.

(** The calls into pygame, with the arguments that matter. *)
Inductive pygame_call :=
| Pygame_init
| Display_init
| Display_set_mode (width height : Z)
| Clock_new
| Surface_new (width height : Z)
| Canvas_fill (c : colour)
| Draw_rect (c : colour) (r : Rect)
| Window_blit
| Event_pump
| Display_update
| Clock_tick (fps : metadata_value)
| Pixels3d
| Display_quit
| Pygame_quit.

(** Whether [self.window] and [self.clock] have been set. *)
Record Display := mkDisplay {
  window : bool;
  clock : bool
}.

(** How a call of [render] ends: it returns [None], it returns the pixel
    array, or the dictionary lookup raises. *)
Inductive render_outcome :=
| Render_none
| Render_frame
| Render_KeyError (key : string).

(** The rectangle [render_snake_pieces] and [render_apple] build for a tile. *)
Definition tile_rect (tile_size : Z) (piece : Position) : Rect :=
  let l := (piece.2 * tile_size)%Z in
  let b := (piece.1 * tile_size + tile_size)%Z in
  let t := (piece.1 * tile_size)%Z in
  let r := (piece.2 * tile_size + tile_size)%Z in
  mkRect l t (r - l)%Z (b - t)%Z.

Definition render_background (screen_width screen_height : Z) : list pygame_call :=
  [Surface_new screen_width screen_height; Canvas_fill Black].

Definition render_snake_pieces (tile_size : Z) (w : World) : list pygame_call :=
  map (fun piece => Draw_rect Green (tile_rect tile_size piece)) (snake w).

Definition render_apple (tile_size : Z) (w : World) : list pygame_call :=
  [Draw_rect Red (tile_rect tile_size (apple w))].

(** [render(mode)]; [env] is [None] while [self.state] is [None], that is
    before the first [reset]. *)
Definition render (mode : string) (env : option World) (dsp : Display)
  : render_outcome * Display * list pygame_call :=
  match env with
  | None => (Render_none, dsp, [])
  | Some w =>
    let tile_size := 40%Z in
    let screen_width := (tile_size * 15)%Z in
    let screen_height := (tile_size * 15)%Z in
    let human := bool_decide (mode = "human"%string) in
    let '(dsp, opened) :=
      if negb (window dsp) && human
      then (mkDisplay true (clock dsp),
            [Pygame_init; Display_init; Display_set_mode screen_width screen_height])
      else (dsp, []) in
    let '(dsp, timed) :=
      if negb (clock dsp) && human
      then (mkDisplay (window dsp) true, [Clock_new])
      else (dsp, []) in
    let drawn :=
      opened ++ timed ++ render_background screen_width screen_height
        ++ render_snake_pieces tile_size w ++ render_apple tile_size w in
    if human then
      let shown := drawn ++ [Window_blit; Event_pump; Display_update] in
      match metadata !! "render_fps"%string with
      | None => (Render_KeyError "render_fps"%string, dsp, shown)
      | Some fps => (Render_none, dsp, shown ++ [Clock_tick fps])
      end
    else (Render_frame, dsp, drawn ++ [Pixels3d])
  end.

(** [close()] *)
Definition close (dsp : Display) : list pygame_call :=
  if window dsp then [Display_quit; Pygame_quit] else [].

(** ** Direction mapper: facts *)

(** C8. For a heading in 0..4 the mapper adds one on action 0 (5 wraps to 0),
    subtracts one on action 2 (-1 wraps to 4) and is the identity on
    action 1; equivalently actions 0 and 2 are +1 and -1 modulo 5. *)
Theorem relative_to_global_direction_turns (h : Z) :
  (0 <= h <= 4)%Z ->
  relative_to_global_direction h 0 = (if decide (h = 4) then 0 else h + 1)%Z /\
  relative_to_global_direction h 2 = (if decide (h = 0) then 4 else h - 1)%Z /\
  relative_to_global_direction h 1 = h /\
  relative_to_global_direction h 0 = ((h + 1) mod 5)%Z /\
  relative_to_global_direction h 2 = ((h - 1) mod 5)%Z.
Proof.
  intros Hh.
  assert (h = 0 \/ h = 1 \/ h = 2 \/ h = 3 \/ h = 4)%Z as Hcases by lia.
  destruct Hcases as [-> | [-> | [-> | [-> | ->]]]]; repeat split; reflexivity.
Qed.

Lemma relative_to_global_direction_turns_witness :
  (0 <= 4 <= 4)%Z /\
  (relative_to_global_direction 4 0 = (if decide (4 = 4) then 0 else 4 + 1)%Z /\
   relative_to_global_direction 4 2 = (if decide (4 = 0) then 4 else 4 - 1)%Z /\
   relative_to_global_direction 4 1 = 4%Z /\
   relative_to_global_direction 4 0 = ((4 + 1) mod 5)%Z /\
   relative_to_global_direction 4 2 = ((4 - 1) mod 5)%Z).
Proof.
  split; [lia | apply (relative_to_global_direction_turns 4); lia].
Defined.

(** ** Movement: facts *)

Lemma move_piece_length (i : nat) (s : list Position) :
  length (move_piece i s) = length s.
Proof.
  unfold move_piece.
  destruct (s !! i) as [p|]; [|reflexivity].
  destruct (s !! (i - 1)) as [q|]; [|reflexivity].
  case_decide; [apply length_insert | reflexivity].
Qed.

(** One iteration at an index of the loop range: the piece ends up holding
    what its predecessor holds, whichever branch ran. *)
Lemma move_piece_lookup (j k : nat) (s : list Position) :
  S j < length s ->
  move_piece (S j) s !! k = if decide (k = S j) then s !! j else s !! k.
Proof.
  intros Hj. unfold move_piece.
  destruct (lookup_lt_is_Some_2 s (S j) Hj) as [p Hp].
  destruct (lookup_lt_is_Some_2 s j ltac:(lia)) as [q Hq].
  replace (S j - 1) with j by lia. rewrite Hp, Hq.
  destruct (decide (p <> q)) as [Hne|Heq].
  - destruct (decide (k = S j)) as [->|Hk].
    + rewrite list_lookup_insert_eq by lia. reflexivity.
    + rewrite list_lookup_insert_ne by congruence. reflexivity.
  - destruct (decide (k = S j)) as [->|Hk]; [|reflexivity].
    destruct (decide (p = q)) as [->|]; [exact Hp | contradiction].
Qed.

Lemma shift_from_length (n : nat) (s : list Position) :
  length (shift_from n s) = length s.
Proof.
  revert s. induction n as [|n IH]; intros s; simpl; [reflexivity|].
  rewrite IH. apply move_piece_length.
Qed.

(** The whole loop: every piece of the range takes the place its
    predecessor had before the call; the rest is as it was. *)
Lemma shift_from_lookup (n i : nat) (s : list Position) :
  n < length s ->
  shift_from n s !! i =
    if decide (1 <= i <= n) then s !! (i - 1) else s !! i.
Proof.
  revert s. induction n as [|n IH]; intros s Hn; simpl.
  - destruct (decide (1 <= i <= 0)); [lia | reflexivity].
  - rewrite IH by (rewrite move_piece_length; lia).
    destruct (decide (1 <= i <= n)) as [Hi|Hi].
    + rewrite move_piece_lookup by lia.
      destruct (decide (i - 1 = S n)); [lia|].
      destruct (decide (1 <= i <= S n)); [reflexivity | lia].
    + rewrite move_piece_lookup by lia.
      destruct (decide (i = S n)) as [->|Hne].
      * destruct (decide (1 <= S n <= S n)); [|lia].
        replace (S n - 1) with n by lia. reflexivity.
      * destruct (decide (1 <= i <= S n)); [lia | reflexivity].
Qed.

Lemma shift_from_head (hd : Position) (tl : list Position) :
  exists tl', shift_from (length tl) (hd :: tl) = hd :: tl' /\
              length tl' = length tl.
Proof.
  pose proof (shift_from_length (length tl) (hd :: tl)) as Hlen.
  pose proof (shift_from_lookup (length tl) 0 (hd :: tl)) as H0.
  destruct (shift_from (length tl) (hd :: tl)) as [|x tl'] eqn:E.
  - simpl in Hlen. lia.
  - exists tl'. simpl in Hlen.
    specialize (H0 ltac:(simpl; lia)).
    destruct (decide (1 <= 0 <= length tl)); [lia|].
    simpl in H0. split; [congruence | lia].
Qed.

Lemma move_snake_run (st : Store) (hd : Position) (tl : list Position) :
  snake (self st) = hd :: tl ->
  exists tl',
    shift_from (length tl) (hd :: tl) = hd :: tl' /\
    move_snake st =
      (Returned tt,
       with_self (set_snake (move_head (global_snake_direction (self st)) hd :: tl')) st).
Proof.
  intros Hs. destruct (shift_from_head hd tl) as (tl' & Htl' & _).
  exists tl'. split; [exact Htl'|].
  unfold move_snake, bind, get_self. rewrite Hs.
  replace (length (hd :: tl) - 1) with (length tl) by (simpl; lia).
  rewrite Htl'. reflexivity.
Qed.

(** C5. The movement phase on any non-empty body and any heading: the loop
    body at index i overwrites a piece that differs from its predecessor and
    leaves an equal one untouched; after the loop, run from the tail down to
    index 1, every piece but the head holds what its predecessor held, a
    piece that already equalled its predecessor keeps its value, and the
    length is unchanged; then the head moves one tile: heading 0 row - 1,
    1 column + 1, 2 row + 1, 3 or 4 column - 1.  With heading Right, action 1
    keeps the heading, so the head row is unchanged and the column grows by
    exactly 1. *)
Theorem move_snake_advances (st : Store) (hd : Position) (tl : list Position) :
  snake (self st) = hd :: tl ->
  let body := hd :: tl in
  let d := global_snake_direction (self st) in
  (forall (s : list Position) (i : nat) (p q : Position),
      s !! i = Some p -> s !! (i - 1) = Some q ->
      (p <> q -> move_piece i s = <[i := q]> s) /\
      (p = q -> move_piece i s = s)) /\
  exists body',
    move_snake st = (Returned tt, with_self (set_snake body') st) /\
    length body' = length body /\
    (forall i, 1 <= i < length body -> body' !! i = body !! (i - 1)) /\
    (forall i, 1 <= i < length body ->
               body !! i = body !! (i - 1) -> body' !! i = body !! i) /\
    (d = 0%Z -> body' !! 0 = Some (hd.1 - 1, hd.2)%Z) /\
    (d = 1%Z -> body' !! 0 = Some (hd.1, hd.2 + 1)%Z) /\
    (d = 2%Z -> body' !! 0 = Some (hd.1 + 1, hd.2)%Z) /\
    (d = 3%Z \/ d = 4%Z -> body' !! 0 = Some (hd.1, hd.2 - 1)%Z) /\
    (d = 1%Z ->
       relative_to_global_direction d 1 = 1%Z /\
       body' !! 0 = Some (hd.1, hd.2 + 1)%Z).
Proof.
  intros Hs body d. split.
  { intros s i p q Hp Hq. unfold move_piece. rewrite Hp, Hq.
    split; intros H; case_decide; congruence. }
  destruct (move_snake_run st hd tl Hs) as (tl' & Hshift & Hrun).
  exists (move_head d hd :: tl').
  assert (Hrest : forall i, 1 <= i < length body ->
                            (move_head d hd :: tl') !! i = body !! (i - 1)).
  { intros i Hi.
    pose proof (shift_from_lookup (length tl) i (hd :: tl) ltac:(simpl; lia)) as H.
    rewrite Hshift in H. subst body. simpl in Hi.
    destruct (decide (1 <= i <= length tl)); [|lia].
    destruct i as [|i]; [lia|]. exact H. }
  split; [exact Hrun|].
  split.
  { pose proof (shift_from_length (length tl) (hd :: tl)) as Hl.
    rewrite Hshift in Hl. exact Hl. }
  split; [exact Hrest|].
  split; [intros i Hi Heq; rewrite Heq; apply Hrest; exact Hi|].
  clearbody d. simpl. unfold move_head.
  split; [intros ->; reflexivity|].
  split; [intros ->; reflexivity|].
  split; [intros ->; reflexivity|].
  split; [intros [-> | ->]; reflexivity|].
  intros ->. split; reflexivity.
Qed.

Lemma move_snake_advances_witness :
  let st := mkStore (mkWorld [(7, 4); (7, 3); (7, 3)]%Z (7, 11)%Z 1 []) 0 [] in
  snake (self st) = [(7, 4); (7, 3); (7, 3)]%Z /\
  exists body',
    move_snake st = (Returned tt, with_self (set_snake body') st) /\
    length body' = 3 /\
    body' !! 0 = Some (7, 5)%Z /\
    body' !! 1 = Some (7, 4)%Z /\
    body' !! 2 = Some (7, 3)%Z.
Proof.
  intros st. split; [reflexivity|].
  destruct (move_snake_advances st (7, 4)%Z [(7, 3); (7, 3)]%Z eq_refl)
    as (_ & body' & Hrun & Hlen & Hshift & Hkeep & _ & Hright & _).
  exists body'. split; [exact Hrun|]. split; [exact Hlen|].
  split; [exact (Hright eq_refl)|].
  split; [apply (Hshift 1); simpl; lia|].
  apply (Hkeep 2); [simpl; lia | reflexivity].
Defined.

(** C7. Heading code 4 behaves as code 3 (Left): on every store, advancing
    the body gives the same outcome and the same body, and on every ray
    vector (the 8-element ones included) the rotation gives the same
    result. *)
Theorem heading_4_behaves_as_3 (st : Store) (obs : list Z) :
  let st3 := with_self (set_direction 3) st in
  let st4 := with_self (set_direction 4) st in
  fst (move_snake st4) = fst (move_snake st3) /\
  snake (self (snd (move_snake st4))) = snake (self (snd (move_snake st3))) /\
  rotate_obs obs st4 = (Returned (rotate obs 6), st4) /\
  rotate_obs obs st3 = (Returned (rotate obs 6), st3).
Proof.
  intros st3 st4. subst st3 st4.
  unfold move_snake, rotate_obs, bind, get_self. simpl.
  destruct (shift_from (length (snake (self st)) - 1) (snake (self st)));
    simpl; repeat split; reflexivity.
Qed.

(** ** The monad: running a computation *)

Lemma bind_returned {A B} (m : M A) (k : A -> M B) (st st' : Store) (a : A) :
  m st = (Returned a, st') -> bind m k st = k a st'.
Proof. intros H. unfold bind. rewrite H. reflexivity. Qed.

(** A bind returns only if both parts do. *)
Lemma bind_inv {A B} (m : M A) (k : A -> M B) (st st' : Store) (b : B) :
  bind m k st = (Returned b, st') ->
  exists a st1, m st = (Returned a, st1) /\ k a st1 = (Returned b, st').
Proof.
  unfold bind. destruct (m st) as [[a|f|] st1]; intros H;
    [eauto | discriminate | discriminate].
Qed.

Lemma head_piece_run (st : Store) (hd : Position) (tl : list Position) :
  snake (self st) = hd :: tl -> head_piece st = (Returned hd, st).
Proof. intros H. unfold head_piece, bind, get_self. rewrite H. reflexivity. Qed.

Lemma head_piece_inv (st st' : Store) (hd : Position) :
  head_piece st = (Returned hd, st') ->
  st' = st /\ exists tl, snake (self st) = hd :: tl.
Proof.
  unfold head_piece, bind, get_self.
  destruct (snake (self st)) as [|x tl] eqn:E; [discriminate|].
  unfold ret. intros [= -> ->]. eauto.
Qed.

(** ** Growth: facts *)

Section Growth.
Variable rng : nat -> Z.

Lemma grow_run (st : Store) (t : Position) :
  last (snake (self st)) = Some t ->
  bind append_last_copy (fun _ => generate_new_random_apple rng) st =
    (Returned tt, grown rng t st).
Proof.
  intros Ht. unfold append_last_copy, bind at 1 2, get_self. rewrite Ht.
  reflexivity.
Qed.

(** The scan passes over pieces that differ from the apple. *)
Lemma ate_loop_skip (n fuel i : nat) (st : Store) :
  (forall k p, i <= k < i + n -> snake (self st) !! k = Some p ->
               p <> apple (self st)) ->
  i + n <= length (snake (self st)) ->
  ate_loop rng (n + fuel) i st = ate_loop rng fuel (i + n) st.
Proof.
  revert i. induction n as [|n IH]; intros i Hmiss Hlen.
  - rewrite Nat.add_0_r. reflexivity.
  - simpl. unfold bind at 1, get_self.
    destruct (lookup_lt_is_Some_2 (snake (self st)) i ltac:(lia)) as [p Hp].
    rewrite Hp. destruct (decide (p = apple (self st))) as [Heq|Hne].
    + exfalso. apply (Hmiss i p); [lia | exact Hp | exact Heq].
    + unfold bind, ret. rewrite IH.
      * f_equal. lia.
      * intros k q Hk. apply Hmiss. lia.
      * lia.
Qed.

(** The scan ends where the list ends. *)
Lemma ate_loop_end (fuel i : nat) (st : Store) :
  length (snake (self st)) <= i ->
  ate_loop rng (S fuel) i st = (Returned tt, st).
Proof.
  intros Hi. simpl. unfold bind, get_self.
  rewrite (lookup_ge_None_2 _ _ Hi). reflexivity.
Qed.

(** A visit of a piece equal to the apple grows the body and goes on. *)
Lemma ate_loop_hit (fuel i : nat) (st : Store) (t : Position) :
  snake (self st) !! i = Some (apple (self st)) ->
  last (snake (self st)) = Some t ->
  ate_loop rng (S fuel) i st = ate_loop rng fuel (S i) (grown rng t st).
Proof.
  intros Hi Ht. simpl. unfold bind at 1, get_self. rewrite Hi.
  destruct (decide (apple (self st) = apple (self st))); [|contradiction].
  unfold bind at 1. rewrite (grow_run st t Ht). reflexivity.
Qed.

(** Each respawn goes with one appended piece, and a scan that still has a
    piece equal to the apple ahead of it respawns at least once. *)
Lemma ate_loop_count (fuel i : nat) (st st' : Store) :
  ate_loop rng fuel i st = (Returned tt, st') ->
  exists n,
    cursor st' = cursor st + 2 * n /\
    length (snake (self st')) = length (snake (self st)) + n /\
    (apple (self st) ∈ drop i (snake (self st)) -> 1 <= n).
Proof.
  revert i st. induction fuel as [|fuel IH]; intros i st Hrun; [discriminate|].
  simpl in Hrun. unfold bind at 1, get_self in Hrun.
  destruct (snake (self st) !! i) as [p|] eqn:Hp.
  - destruct (decide (p = apple (self st))) as [Heq|Hne].
    + destruct (last (snake (self st))) as [t|] eqn:Ht.
      * unfold bind at 1 in Hrun. rewrite (grow_run st t Ht) in Hrun.
        destruct (IH _ _ Hrun) as (n & Hc & Hl & _).
        exists (S n). simpl in Hc, Hl. rewrite length_app in Hl. simpl in Hl.
        repeat split; lia.
      * apply last_None in Ht. rewrite Ht in Hp. discriminate.
    + unfold bind, ret in Hrun.
      destruct (IH _ _ Hrun) as (n & Hc & Hl & Hn).
      exists n. repeat split; [exact Hc | exact Hl |].
      intros Hin. apply Hn.
      rewrite (drop_S _ _ _ Hp) in Hin.
      apply elem_of_cons in Hin as [Hin|Hin]; [congruence | exact Hin].
  - unfold ret in Hrun. injection Hrun as <-.
    exists 0. repeat split; [lia | lia |].
    intros Hin. apply lookup_ge_None_1 in Hp.
    rewrite drop_ge in Hin by exact Hp. inversion Hin.
Qed.

(** With the first respawn off the pieces still to be scanned, the phase
    grows once and returns. *)
Lemma ate_loop_once (fuel j : nat) (st : Store) (t : Position) :
  snake (self st) !! j = Some (apple (self st)) ->
  (forall k p, k < j -> snake (self st) !! k = Some p -> p <> apple (self st)) ->
  last (snake (self st)) = Some t ->
  drawn_apple rng (cursor st) ∉ drop (S j) (snake (self st) ++ [t]) ->
  length (snake (self st)) + 2 <= fuel ->
  ate_loop rng fuel 0 st = (Returned tt, grown rng t st).
Proof.
  intros Hj Hbefore Ht Hmiss Hfuel.
  pose proof (lookup_lt_Some _ _ _ Hj) as Hjlen.
  set (len := length (snake (self st))) in *.
  replace fuel with (j + S ((len - j) + S (fuel - len - 2))) by lia.
  rewrite ate_loop_skip;
    [| intros k p Hk; apply Hbefore; lia | fold len; lia].
  simpl plus at 1. rewrite (ate_loop_hit _ _ _ t Hj Ht).
  rewrite ate_loop_skip.
  - apply ate_loop_end. simpl. rewrite length_app. simpl. fold len. lia.
  - intros k p Hk Hp Heq. simpl in Hp, Heq. apply Hmiss.
    apply (list_elem_of_lookup_2 _ (k - S j)).
    rewrite lookup_drop. replace (S j + (k - S j)) with k by lia.
    rewrite Hp, Heq. reflexivity.
  - simpl. rewrite length_app. simpl. fold len. lia.
Qed.

End Growth.

(** C3 as stated fails: with the head on the apple and the respawn landing
    on the tail, the scan reaches the tail after the respawn, finds the new
    apple there and grows a second time. *)
Lemma growth_adds_exactly_one_fails : ~ growth_adds_exactly_one.
Proof.
  intros H.
  specialize (H (tail_rng 1) 6 head_on_apple _ PyNone
                ltac:(vm_compute; left) eq_refl).
  vm_compute in H. discriminate.
Qed.

(** Whatever the fuel and however the scan ends, it has only appended
    copies of the last piece, one per respawn, and it has not raised. *)
Lemma ate_loop_extends (rng : nat -> Z) (fuel i : nat) (st st' : Store)
    (o : outcome unit) :
  ate_loop rng fuel i st = (o, st') ->
  (o = Returned tt \/ o = OutOfFuel) /\
  exists n,
    snake (self st') =
      snake (self st) ++ replicate n (default (0, 0)%Z (last (snake (self st)))) /\
    cursor st' = cursor st + 2 * n /\
    global_snake_direction (self st') = global_snake_direction (self st) /\
    state (self st') = state (self st) /\
    log st' = log st /\
    (n = 0 /\ apple (self st') = apple (self st) \/
     0 < n /\ apple (self st') = drawn_apple rng (cursor st' - 2)).
Proof.
  revert i st. induction fuel as [|fuel IH]; intros i st Hrun.
  - injection Hrun as <- <-. split; [right; reflexivity|].
    exists 0. rewrite app_nil_r. repeat split; try lia. left. split; reflexivity.
  - simpl in Hrun. unfold bind at 1, get_self in Hrun.
    destruct (snake (self st) !! i) as [p|] eqn:Hp.
    + destruct (decide (p = apple (self st))) as [Heq|Hne].
      * destruct (last (snake (self st))) as [t|] eqn:Ht;
          [|apply last_None in Ht; rewrite Ht in Hp; discriminate].
        unfold bind at 1 in Hrun. rewrite (grow_run rng st t Ht) in Hrun.
        destruct (IH _ _ Hrun) as (Ho & n & Hs & Hc & Hd & Hst & Hl & Ha).
        split; [exact Ho|]. exists (S n). simpl in Hs, Hc, Hd, Hst, Hl, Ha.
        rewrite last_snoc in Hs. simpl in Hs.
        split; [rewrite Hs, <- app_assoc; reflexivity|].
        split; [lia|]. split; [exact Hd|]. split; [exact Hst|].
        split; [exact Hl|]. right. split; [lia|].
        destruct Ha as [[-> Ha] | [_ Ha]]; rewrite Ha; f_equal; lia.
      * unfold bind, ret in Hrun. exact (IH _ _ Hrun).
    + unfold ret in Hrun. injection Hrun as <- <-. split; [left; reflexivity|].
      exists 0. rewrite app_nil_r. repeat split; try lia. left. split; reflexivity.
Qed.

(** A respawn that lands on a piece the scan has still to visit is eaten in
    the same scan: a returning scan has then respawned at least twice. *)
Lemma ate_loop_again (rng : nat -> Z) (fuel i j : nat) (st st' : Store)
    (t : Position) :
  ate_loop rng fuel i st = (Returned tt, st') ->
  i <= j ->
  snake (self st) !! j = Some (apple (self st)) ->
  (forall k p, i <= k < j -> snake (self st) !! k = Some p ->
               p <> apple (self st)) ->
  last (snake (self st)) = Some t ->
  drawn_apple rng (cursor st) ∈ drop (S j) (snake (self st) ++ [t]) ->
  exists n, 2 <= n /\ cursor st' = cursor st + 2 * n.
Proof.
  revert i. induction fuel as [|fuel IH]; intros i Hrun Hij Hj Hbefore Ht Hland;
    [discriminate|].
  simpl in Hrun. unfold bind at 1, get_self in Hrun.
  destruct (snake (self st) !! i) as [p|] eqn:Hp.
  - destruct (decide (p = apple (self st))) as [Heq|Hne].
    + assert (i = j) as ->.
      { destruct (decide (i = j)) as [|Hneq]; [assumption|].
        exfalso. apply (Hbefore i p); [lia | exact Hp | exact Heq]. }
      unfold bind at 1 in Hrun. rewrite (grow_run rng st t Ht) in Hrun.
      destruct (ate_loop_count rng _ _ _ _ Hrun) as (n & Hc & _ & Hn).
      simpl in Hc, Hn. exists (S n). split; [|lia].
      specialize (Hn Hland). lia.
    + unfold bind, ret in Hrun.
      assert (i <> j) by (intros ->; rewrite Hj in Hp; congruence).
      apply (IH (S i) Hrun); [lia | exact Hj | | exact Ht | exact Hland].
      intros k q Hk. apply Hbefore. lia.
  - apply lookup_ge_None_1 in Hp. apply lookup_lt_Some in Hj. lia.
Qed.

(** C3, amended. When some piece equals the apple as growth is checked, the
    growth-and-spawn phase, if it returns, has appended copies of the last
    piece, one per respawn and at least one. When the first respawned apple
    lies on none of the pieces still to be scanned (the pieces after the
    first one equal to the apple, the appended copy included), the phase
    returns, given fuel beyond the body length, with exactly one piece
    appended. When it lies on one of them, that respawn is eaten in the same
    scan and the body has grown by at least two when the phase returns. *)
Theorem growth_adds_one_per_respawn (rng : nat -> Z) (st : Store) :
  apple (self st) ∈ snake (self st) ->
  (forall fuel v st',
      check_if_ate_apple rng fuel st = (Returned v, st') ->
      exists n t, 1 <= n /\
        last (snake (self st)) = Some t /\
        snake (self st') = snake (self st) ++ replicate n t /\
        cursor st' = cursor st + 2 * n /\
        length (snake (self st')) = length (snake (self st)) + n) /\
  (forall j t fuel,
      snake (self st) !! j = Some (apple (self st)) ->
      (forall k p, k < j -> snake (self st) !! k = Some p ->
                   p <> apple (self st)) ->
      last (snake (self st)) = Some t ->
      drawn_apple rng (cursor st) ∉ drop (S j) (snake (self st) ++ [t]) ->
      length (snake (self st)) + 2 <= fuel ->
      check_if_ate_apple rng fuel st = (Returned PyNone, grown rng t st) /\
      snake (self (grown rng t st)) = snake (self st) ++ [t] /\
      length (snake (self (grown rng t st))) = length (snake (self st)) + 1) /\
  (forall j t fuel v st',
      snake (self st) !! j = Some (apple (self st)) ->
      (forall k p, k < j -> snake (self st) !! k = Some p ->
                   p <> apple (self st)) ->
      last (snake (self st)) = Some t ->
      drawn_apple rng (cursor st) ∈ drop (S j) (snake (self st) ++ [t]) ->
      check_if_ate_apple rng fuel st = (Returned v, st') ->
      exists n, 2 <= n /\
        snake (self st') = snake (self st) ++ replicate n t /\
        length (snake (self st')) = length (snake (self st)) + n).
Proof.
  intros Hin.
  assert (Hgeneral : forall fuel v st',
      check_if_ate_apple rng fuel st = (Returned v, st') ->
      ate_loop rng fuel 0 st = (Returned tt, st') /\
      exists n t, 1 <= n /\
        last (snake (self st)) = Some t /\
        snake (self st') = snake (self st) ++ replicate n t /\
        cursor st' = cursor st + 2 * n /\
        length (snake (self st')) = length (snake (self st)) + n).
  { intros fuel v st' Hrun. unfold check_if_ate_apple in Hrun.
    apply bind_inv in Hrun as ([] & st1 & Hloop & Hret).
    unfold ret in Hret. injection Hret as _ <-. split; [exact Hloop|].
    destruct (ate_loop_count rng _ _ _ _ Hloop) as (n & Hc & Hl & Hn).
    destruct (ate_loop_extends _ _ _ _ _ _ Hloop) as (_ & m & Hbody & Hc' & _).
    assert (m = n) as -> by lia.
    destruct (last (snake (self st))) as [t|] eqn:Ht.
    - exists n, t. simpl in Hbody.
      split; [apply Hn; exact Hin|]. split; [reflexivity|].
      split; [exact Hbody|]. split; [exact Hc | exact Hl].
    - apply last_None in Ht. rewrite Ht in Hin. inversion Hin. }
  split; [intros fuel v st' Hrun; exact (proj2 (Hgeneral fuel v st' Hrun))|].
  split.
  - intros j t fuel Hj Hbefore Ht Hmiss Hfuel.
    split; [| split; [reflexivity | simpl; rewrite length_app; simpl; lia]].
    unfold check_if_ate_apple.
    rewrite (bind_returned _ _ _ _ _
               (ate_loop_once rng fuel j st t Hj Hbefore Ht Hmiss Hfuel)).
    reflexivity.
  - intros j t fuel v st' Hj Hbefore Ht Hland Hrun.
    destruct (Hgeneral fuel v st' Hrun)
      as (Hloop & n & t' & _ & Ht' & Hbody & Hc & Hl).
    rewrite Ht in Ht'. injection Ht' as <-.
    destruct (ate_loop_again rng fuel 0 j st st' t Hloop ltac:(lia) Hj
                ltac:(intros k p Hk; apply Hbefore; lia) Ht Hland)
      as (m & Hm & Hc'').
    exists n. split; [lia|]. split; [exact Hbody | exact Hl].
Qed.

Lemma growth_adds_one_per_respawn_witness :
  apple (self head_on_apple) ∈ snake (self head_on_apple) /\
  (check_if_ate_apple far_rng 4 head_on_apple =
     (Returned PyNone, grown far_rng (7, 10)%Z head_on_apple) /\
   length (snake (self (grown far_rng (7, 10)%Z head_on_apple))) = 3) /\
  (exists st' n,
     check_if_ate_apple (tail_rng 1) 6 head_on_apple = (Returned PyNone, st') /\
     2 <= n /\
     snake (self st') = snake (self head_on_apple) ++ replicate n (7, 10)%Z).
Proof.
  assert (Hin : apple (self head_on_apple) ∈ snake (self head_on_apple))
    by (vm_compute; left).
  split; [exact Hin|]. split.
  - destruct (growth_adds_one_per_respawn far_rng head_on_apple Hin)
      as (_ & Honce & _).
    destruct (Honce 0 (7, 10)%Z 4) as (Hrun & _ & Hlen).
    + reflexivity.
    + intros k p Hk. lia.
    + reflexivity.
    + apply (bool_decide_unpack _). vm_compute. exact I.
    + simpl. lia.
    + split; [exact Hrun | exact Hlen].
  - destruct (growth_adds_one_per_respawn (tail_rng 1) head_on_apple Hin)
      as (_ & _ & Hagain).
    eexists. 
    edestruct (Hagain 0 (7, 10)%Z 6 PyNone) as (n & Hn & Hbody & _).
    + reflexivity.
    + intros k p Hk. lia.
    + reflexivity.
    + apply (bool_decide_unpack _). vm_compute. exact I.
    + vm_compute. reflexivity.
    + exists n. split; [reflexivity|]. split; [exact Hn | exact Hbody].
Defined.

(** ** Sensors: facts *)

Lemma ray_loop_bounds (hit : Position -> bool) (more : nat) (d : Z)
    (pos : Position) (yb xb : Z) :
  (d <= ray_loop hit more d pos yb xb <= d + Z.of_nat more)%Z.
Proof.
  revert d pos. induction more as [|more IH]; intros d pos; simpl.
  - destruct (hit _); lia.
  - destruct (hit _); [lia|].
    specialize (IH (d + 1)%Z (pos.1 + yb, pos.2 + xb)%Z). lia.
Qed.

Lemma apple_ray_ok (st : Store) (hd : Position) (tl : list Position) :
  snake (self st) = hd :: tl -> ray_ok apple_ray st.
Proof.
  intros Hs obs yb xb. eexists. split.
  - unfold apple_ray. rewrite (bind_returned _ _ _ _ _ (head_piece_run _ _ _ Hs)).
    reflexivity.
  - pose proof (ray_loop_bounds (fun p => bool_decide (p = apple (self st)))
                  14 0 hd yb xb). unfold in_ray_range. lia.
Qed.

Lemma wall_ray_ok (st : Store) (hd : Position) (tl : list Position) :
  snake (self st) = hd :: tl -> ray_ok wall_ray st.
Proof.
  intros Hs obs yb xb. eexists. split.
  - unfold wall_ray. rewrite (bind_returned _ _ _ _ _ (head_piece_run _ _ _ Hs)).
    reflexivity.
  - match goal with |- in_ray_range (ray_loop ?h _ _ _ _ _) =>
      pose proof (ray_loop_bounds h 14 0 hd yb xb) end.
    unfold in_ray_range. lia.
Qed.

Lemma snake_piece_ray_ok (st : Store) (hd : Position) (tl : list Position) :
  snake (self st) = hd :: tl -> ray_ok snake_piece_ray st.
Proof.
  intros Hs obs yb xb. eexists. split.
  - unfold snake_piece_ray.
    rewrite (bind_returned _ _ _ _ _ (head_piece_run _ _ _ Hs)). reflexivity.
  - match goal with |- in_ray_range (ray_loop ?h _ _ _ _ _) =>
      pose proof (ray_loop_bounds h 14 0 hd yb xb) end.
    unfold in_ray_range. lia.
Qed.

Lemma rotate_length (l : list Z) (n : nat) : length (rotate l n) = length l.
Proof.
  unfold rotate. rewrite length_app, length_drop, length_take. lia.
Qed.

Lemma rotate_Forall (P : Z -> Prop) (l : list Z) (n : nat) :
  Forall P l -> Forall P (rotate l n).
Proof.
  intros H. unfold rotate. apply Forall_app.
  split; [apply Forall_drop | apply Forall_take]; exact H.
Qed.

Lemma rotate_obs_run (obs : list Z) (st : Store) :
  exists obs', rotate_obs obs st = (Returned obs', st) /\
               length obs' = length obs /\
               (Forall in_ray_range obs -> Forall in_ray_range obs').
Proof.
  unfold rotate_obs, bind, get_self.
  repeat case_decide; eexists; (split; [reflexivity|]);
    split; auto using rotate_length, rotate_Forall.
Qed.

(** Eight rays, then the rotation: eight in-range values, store untouched. *)
Lemma eight_rays_run (ray : list Z -> Z -> Z -> M (list Z)) (st : Store) :
  ray_ok ray st ->
  exists obs, eight_rays ray st = (Returned obs, st) /\
              length obs = 8 /\ Forall in_ray_range obs.
Proof.
  intros Hray. unfold eight_rays.
  destruct (Hray [] (-1) 0)%Z as (v0 & E0 & B0).
  rewrite (bind_returned _ _ _ _ _ E0).
  destruct (Hray ([] ++ [v0]) (-1) 1)%Z as (v1 & E1 & B1).
  rewrite (bind_returned _ _ _ _ _ E1).
  destruct (Hray (([] ++ [v0]) ++ [v1]) 0 1)%Z as (v2 & E2 & B2).
  rewrite (bind_returned _ _ _ _ _ E2).
  destruct (Hray ((([] ++ [v0]) ++ [v1]) ++ [v2]) 1 1)%Z as (v3 & E3 & B3).
  rewrite (bind_returned _ _ _ _ _ E3).
  destruct (Hray (((([] ++ [v0]) ++ [v1]) ++ [v2]) ++ [v3]) 1 0)%Z
    as (v4 & E4 & B4).
  rewrite (bind_returned _ _ _ _ _ E4).
  destruct (Hray ((((([] ++ [v0]) ++ [v1]) ++ [v2]) ++ [v3]) ++ [v4]) 1 (-1))%Z
    as (v5 & E5 & B5).
  rewrite (bind_returned _ _ _ _ _ E5).
  destruct (Hray (((((([] ++ [v0]) ++ [v1]) ++ [v2]) ++ [v3]) ++ [v4]) ++ [v5])
              0 (-1))%Z as (v6 & E6 & B6).
  rewrite (bind_returned _ _ _ _ _ E6).
  destruct (Hray ((((((([] ++ [v0]) ++ [v1]) ++ [v2]) ++ [v3]) ++ [v4]) ++ [v5])
                    ++ [v6]) (-1) (-1))%Z as (v7 & E7 & B7).
  rewrite (bind_returned _ _ _ _ _ E7).
  simpl app.
  destruct (rotate_obs_run [v0; v1; v2; v3; v4; v5; v6; v7] st)
    as (obs' & Hrot & Hlen & Hall).
  exists obs'. split; [exact Hrot|]. split; [exact Hlen|].
  apply Hall. repeat (constructor; [assumption|]). constructor.
Qed.

(** The observation vector: the body length, then eight apple rays, eight
    wall rays and eight body rays, every ray within 0..14; nothing but
    [state] is written. *)
Lemma generate_state_run (st : Store) (hd : Position) (tl : list Position) :
  snake (self st) = hd :: tl ->
  exists a b c,
    generate_state st =
      (Returned tt,
       with_self (set_state (Z.of_nat (length (snake (self st))) :: a ++ b ++ c)) st) /\
    length a = 8 /\ length b = 8 /\ length c = 8 /\
    Forall in_ray_range a /\ Forall in_ray_range b /\ Forall in_ray_range c.
Proof.
  intros Hs.
  destruct (eight_rays_run apple_ray st (apple_ray_ok st hd tl Hs))
    as (a & Ea & La & Ba).
  destruct (eight_rays_run wall_ray st (wall_ray_ok st hd tl Hs))
    as (b & Eb & Lb & Bb).
  destruct (eight_rays_run snake_piece_ray st (snake_piece_ray_ok st hd tl Hs))
    as (c & Ec & Lc & Bc).
  exists a, b, c. split; [|auto 10].
  unfold generate_state, bind at 1, get_self.
  unfold apple_ray_observation, wall_ray_observation, snake_piece_ray_observation.
  rewrite (bind_returned _ _ _ _ _ Ea), (bind_returned _ _ _ _ _ Eb),
    (bind_returned _ _ _ _ _ Ec).
  unfold modify_self. simpl. rewrite <- app_assoc. reflexivity.
Qed.

(** ** Collision and win: facts *)

Lemma check_if_hit_wall_inv (st st' : Store) (b : bool) :
  check_if_hit_wall st = (Returned b, st') ->
  st' = st /\
  exists hd tl, snake (self st) = hd :: tl /\ (b = true <-> wall_collision hd).
Proof.
  unfold check_if_hit_wall. intros H.
  apply bind_inv in H as (hd & s1 & Hhd & H).
  apply head_piece_inv in Hhd as (-> & tl & Hs).
  unfold ret in H. injection H as <- <-.
  split; [reflexivity|]. exists hd, tl. split; [exact Hs|].
  unfold wall_collision. repeat case_decide; split; intros; try lia; congruence.
Qed.

Lemma check_if_hit_itself_inv (st st' : Store) (b : bool) :
  check_if_hit_itself st = (Returned b, st') ->
  st' = st /\
  exists hd tl, snake (self st) = hd :: tl /\ (b = true <-> self_collision hd tl).
Proof.
  unfold check_if_hit_itself. intros H.
  apply bind_inv in H as (hd & s1 & Hhd & H).
  apply head_piece_inv in Hhd as (-> & tl & Hs).
  unfold bind, get_self, ret in H. injection H as <- <-.
  split; [reflexivity|]. exists hd, tl. split; [exact Hs|].
  unfold self_collision. rewrite Hs. simpl. rewrite drop_0.
  case_decide; split; intros; congruence.
Qed.

Lemma check_if_won_inv (st st' : Store) (b : bool) :
  check_if_won st = (Returned b, st') ->
  st' = st /\ (b = true <-> win (snake (self st))).
Proof.
  unfold check_if_won, bind, get_self, ret. intros H. injection H as <- <-.
  split; [reflexivity|]. unfold win, x_size, y_size.
  case_decide; split; intros; try lia; congruence.
Qed.

(** ** Episode controller: facts *)

Lemma py_assert_inv (c : bool) (st st' : Store) (u : unit) :
  py_assert c st = (Returned u, st') -> c = true /\ st' = st.
Proof.
  unfold py_assert. destruct c; [|discriminate].
  unfold ret. intros [= _ <-]. split; reflexivity.
Qed.

Lemma ate_loop_log (rng : nat -> Z) (fuel i : nat) (st st' : Store) (o : outcome unit) :
  ate_loop rng fuel i st = (o, st') -> log st' = log st.
Proof.
  revert i st. induction fuel as [|fuel IH]; intros i st Hrun.
  - injection Hrun as _ <-. reflexivity.
  - simpl in Hrun. unfold bind at 1, get_self in Hrun.
    destruct (snake (self st) !! i) as [p|] eqn:Hp.
    + destruct (decide (p = apple (self st))).
      * destruct (last (snake (self st))) as [t|] eqn:Ht.
        -- unfold bind at 1 in Hrun. rewrite (grow_run rng st t Ht) in Hrun.
           rewrite (IH _ _ Hrun). reflexivity.
        -- apply last_None in Ht. rewrite Ht in Hp. discriminate.
      * unfold bind, ret in Hrun. apply (IH _ _ Hrun).
    + injection Hrun as _ <-. reflexivity.
Qed.

(** What a returning [step] did, phase by phase: [st3] is the store after
    movement and growth, [o] the observation built from it. *)
Lemma step_returned (rng : nat -> Z) (fuel : nat) (action : Z)
    (st st' : Store) (r : StepResult) :
  step rng fuel action st = (Returned r, st') ->
  exists st2 st3 hd tl o,
    Discrete_contains 3 action = true /\
    move_snake
      (with_self (set_direction
         (relative_to_global_direction (global_snake_direction (self st)) action)) st)
      = (Returned tt, st2) /\
    check_if_ate_apple rng fuel st2 = (Returned PyNone, st3) /\
    snake (self st3) = hd :: tl /\
    generate_state st3 = (Returned tt, with_self (set_state o) st3) /\
    (done r = true <->
       wall_collision hd \/ self_collision hd tl \/ win (hd :: tl)) /\
    reward r = (if done r then 0 else 1)%Z /\
    observation r = o /\
    st' = mkStore (set_state o (self st3)) (cursor st3)
            (log st3 ++ if done r then [Warn_step_after_done] else []).
Proof.
  intros H. unfold step in H.
  apply bind_inv in H as ([] & s0 & Hassert & H).
  apply py_assert_inv in Hassert as [Hvalid ->].
  apply bind_inv in H as (w & s1 & Hget & H).
  unfold get_self in Hget. injection Hget as <- <-.
  apply bind_inv in H as ([] & s2 & Hmod & H).
  unfold modify_self in Hmod. injection Hmod as <-.
  apply bind_inv in H as ([] & st2 & Hmove & H).
  apply bind_inv in H as (ate & st3 & Hate & H).
  assert (ate = PyNone) as ->.
  { unfold check_if_ate_apple in Hate.
    apply bind_inv in Hate as (? & ? & _ & Hret).
    unfold ret in Hret. congruence. }
  apply bind_inv in H as (hw & s5 & Hwall & H).
  apply check_if_hit_wall_inv in Hwall as (-> & hd & tl & Hs & Hhw).
  apply bind_inv in H as (died & s6 & Hdied & H).
  assert (s6 = st3 /\ (died = true <-> wall_collision hd \/ self_collision hd tl))
    as [-> Hd].
  { destruct hw.
    - unfold ret in Hdied. injection Hdied as <- <-.
      split; [reflexivity|]. split; [intros _; left; apply Hhw; reflexivity | reflexivity].
    - apply check_if_hit_itself_inv in Hdied as (-> & hd' & tl' & Hs' & Hi).
      rewrite Hs in Hs'. injection Hs' as <- <-.
      split; [reflexivity|]. rewrite Hi. split; [tauto|].
      intros [Hw|Hself]; [|exact Hself]. apply Hhw in Hw. discriminate. }
  apply bind_inv in H as (won & s7 & Hwon & H).
  apply check_if_won_inv in Hwon as (-> & Hw). rewrite Hs in Hw.
  apply bind_inv in H as ([] & s8 & Hgen & H).
  destruct (generate_state_run st3 hd tl Hs) as (a & b & c & Hgen' & _).
  rewrite Hgen' in Hgen. injection Hgen as <-.
  apply bind_inv in H as ([] & s9 & Hwarn & H).
  unfold bind, get_self, ret in H. injection H as <- <-.
  exists st2, st3, hd, tl. eexists.
  split; [exact Hvalid|]. split; [exact Hmove|]. split; [exact Hate|].
  split; [exact Hs|]. split; [exact Hgen'|]. simpl.
  split.
  { rewrite orb_true_iff, Hd, Hw. tauto. }
  split; [destruct (died || won); reflexivity|].
  destruct (died || won); simpl in Hwarn.
  - unfold logger_warn in Hwarn. injection Hwarn as <-. simpl.
    split; reflexivity.
  - unfold ret in Hwarn. injection Hwarn as <-. simpl.
    rewrite app_nil_r. split; reflexivity.
Qed.

Lemma check_if_hit_wall_run (st : Store) (hd : Position) (tl : list Position) :
  snake (self st) = hd :: tl ->
  exists b, check_if_hit_wall st = (Returned b, st).
Proof.
  intros Hs. unfold check_if_hit_wall.
  rewrite (bind_returned _ _ _ _ _ (head_piece_run _ _ _ Hs)).
  eexists. reflexivity.
Qed.

Lemma check_if_hit_itself_run (st : Store) (hd : Position) (tl : list Position) :
  snake (self st) = hd :: tl ->
  exists b, check_if_hit_itself st = (Returned b, st).
Proof.
  intros Hs. unfold check_if_hit_itself.
  rewrite (bind_returned _ _ _ _ _ (head_piece_run _ _ _ Hs)).
  eexists. reflexivity.
Qed.

(** Once movement and growth have returned, the rest of [step] returns. *)
Lemma step_run (rng : nat -> Z) (fuel : nat) (action : Z) (st st2 st3 : Store)
    (v : pyvalue) (hd : Position) (tl : list Position) :
  Discrete_contains 3 action = true ->
  move_snake
    (with_self (set_direction
       (relative_to_global_direction (global_snake_direction (self st)) action)) st)
    = (Returned tt, st2) ->
  check_if_ate_apple rng fuel st2 = (Returned v, st3) ->
  snake (self st3) = hd :: tl ->
  exists r st', step rng fuel action st = (Returned r, st').
Proof.
  intros Hvalid Hmove Hate Hs. unfold step. rewrite Hvalid.
  unfold py_assert, bind at 1, ret at 1.
  unfold bind at 1, get_self at 1.
  unfold bind at 1, modify_self at 1.
  rewrite (bind_returned _ _ _ _ _ Hmove), (bind_returned _ _ _ _ _ Hate).
  destruct (check_if_hit_wall_run st3 hd tl Hs) as [hw Hhw].
  rewrite (bind_returned _ _ _ _ _ Hhw).
  assert (exists died, (if hw then ret true else check_if_hit_itself) st3
                       = (Returned died, st3)) as [died Hdied].
  { destruct hw; [eexists; reflexivity | apply (check_if_hit_itself_run st3 hd tl Hs)]. }
  rewrite (bind_returned _ _ _ _ _ Hdied).
  unfold check_if_won, bind at 1 2, get_self at 1, ret at 1.
  destruct (generate_state_run st3 hd tl Hs) as (a & b & c & Hgen & _).
  rewrite (bind_returned _ _ _ _ _ Hgen).
  match goal with |- context [died || ?w] => destruct (died || w) end;
    simpl; unfold bind, logger_warn, get_self, ret; simpl; eauto.
Qed.

Lemma first_match (x : Position) (l : list Position) :
  x ∈ l ->
  exists j, l !! j = Some x /\ forall k p, k < j -> l !! k = Some p -> p <> x.
Proof.
  induction l as [|y l IH]; intros Hin; [inversion Hin|].
  destruct (decide (y = x)) as [->|Hne].
  - exists 0. split; [reflexivity | intros k p Hk; lia].
  - apply elem_of_cons in Hin as [Hin|Hin]; [congruence|].
    destruct (IH Hin) as (j & Hj & Hbefore). exists (S j).
    split; [exact Hj|]. intros [|k] p Hk Hp.
    + simpl in Hp. congruence.
    + apply (Hbefore k); [lia | exact Hp].
Qed.

(** The growth phase returns whenever the first respawn lands off the body
    (and also when there is nothing to eat). *)
Lemma check_if_ate_apple_returns (rng : nat -> Z) (fuel : nat) (st : Store) :
  drawn_apple rng (cursor st) ∉ snake (self st) ->
  length (snake (self st)) + 2 <= fuel ->
  exists st', check_if_ate_apple rng fuel st = (Returned PyNone, st') /\
              exists extra, snake (self st') = snake (self st) ++ extra.
Proof.
  intros Hoff Hfuel. unfold check_if_ate_apple.
  destruct (decide (apple (self st) ∈ snake (self st))) as [Hin|Hout].
  - destruct (first_match _ _ Hin) as (j & Hj & Hbefore).
    destruct (last (snake (self st))) as [t|] eqn:Ht.
    + exists (grown rng t st). split; [|exists [t]; reflexivity].
      assert (Hmiss : drawn_apple rng (cursor st)
                        ∉ drop (S j) (snake (self st) ++ [t])).
      { intros Hd. apply (subseteq_drop (S j)) in Hd.
        apply elem_of_app in Hd as [Hd|Hd]; [exact (Hoff Hd)|].
        apply list_elem_of_singleton in Hd. apply Hoff. rewrite Hd.
        apply last_Some_elem_of. exact Ht. }
      rewrite (bind_returned _ _ _ _ _
                 (ate_loop_once rng fuel j st t Hj Hbefore Ht Hmiss Hfuel)).
      reflexivity.
    + apply last_None in Ht. rewrite Ht in Hj. discriminate.
  - exists st. split; [|exists []; rewrite app_nil_r; reflexivity].
    assert (Hloop : ate_loop rng fuel 0 st = (Returned tt, st)).
    { replace fuel
        with (length (snake (self st)) + S (fuel - length (snake (self st)) - 1))
        by lia.
      rewrite ate_loop_skip.
      - apply ate_loop_end. simpl. lia.
      - intros k p _ Hp Heq. apply Hout. rewrite <- Heq.
        apply (list_elem_of_lookup_2 _ k). exact Hp.
      - simpl. lia. }
    rewrite (bind_returned _ _ _ _ _ Hloop). reflexivity.
Qed.

Lemma move_snake_inv (st st2 : Store) (u : unit) :
  move_snake st = (Returned u, st2) ->
  exists hd tl, snake (self st2) = hd :: tl.
Proof.
  unfold move_snake, bind, get_self.
  destruct (shift_from _ _) as [|hd tl]; [discriminate|].
  unfold modify_self. intros [= _ <-]. simpl. eauto.
Qed.

(** [step] returns on a valid action as soon as the body is not empty and
    the first respawn, if one is needed, lands off the moved body; fuel
    beyond the body length is enough. *)
Lemma step_returns (rng : nat -> Z) (fuel : nat) (action : Z) (st st2 : Store) :
  (0 <= action <= 2)%Z ->
  move_snake
    (with_self (set_direction
       (relative_to_global_direction (global_snake_direction (self st)) action)) st)
    = (Returned tt, st2) ->
  drawn_apple rng (cursor st2) ∉ snake (self st2) ->
  length (snake (self st2)) + 2 <= fuel ->
  exists r st', step rng fuel action st = (Returned r, st').
Proof.
  intros Hact Hmove Hoff Hfuel.
  destruct (check_if_ate_apple_returns rng fuel st2 Hoff Hfuel)
    as (st3 & Hate & extra & Hextra).
  destruct (move_snake_inv _ _ _ Hmove) as (hd & tl & Hs).
  apply (step_run rng fuel action st st2 st3 PyNone hd (tl ++ extra)).
  - unfold Discrete_contains.
    rewrite !bool_decide_eq_true_2 by lia. reflexivity.
  - exact Hmove.
  - exact Hate.
  - rewrite Hextra, Hs. reflexivity.
Qed.

Lemma move_snake_advanced (st : Store) :
  snake (self st) <> [] ->
  move_snake st =
    (Returned tt,
     with_self (set_snake (advanced (global_snake_direction (self st))
                                    (snake (self st)))) st) /\
  length (advanced (global_snake_direction (self st)) (snake (self st)))
    = length (snake (self st)).
Proof.
  intros Hne. destruct (snake (self st)) as [|hd tl] eqn:Hs; [contradiction|].
  destruct (move_snake_run st hd tl Hs) as (tl' & Hshift & Hrun).
  pose proof (shift_from_length (length tl) (hd :: tl)) as Hlen.
  unfold advanced.
  replace (length (hd :: tl) - 1) with (length tl) by (simpl; lia).
  rewrite Hshift in *. split; [exact Hrun | exact Hlen].
Qed.

(** C6. Whenever [step] returns, the body after movement and growth is not
    empty and the returned done flag is true exactly when, on that body, the
    head is outside rows and columns 0..14, or equals another piece, or the
    length is 225; and a true done flag comes with reward 0.  The call does
    return, on a valid action and a non-empty body, as soon as the first
    respawn lands off the moved body and the fuel exceeds the body length
    by two. *)
Theorem step_done_iff_terminal (rng : nat -> Z) (fuel : nat) (action : Z)
    (st : Store) :
  let d := relative_to_global_direction (global_snake_direction (self st)) action in
  (forall r st',
      step rng fuel action st = (Returned r, st') ->
      exists st2 st3 hd tl,
        move_snake (with_self (set_direction d) st) = (Returned tt, st2) /\
        check_if_ate_apple rng fuel st2 = (Returned PyNone, st3) /\
        snake (self st3) = hd :: tl /\
        snake (self st') = hd :: tl /\
        (done r = true <->
           wall_collision hd \/ self_collision hd tl \/ win (hd :: tl)) /\
        (done r = true -> reward r = 0%Z)) /\
  ((0 <= action <= 2)%Z ->
   snake (self st) <> [] ->
   drawn_apple rng (cursor st) ∉ advanced d (snake (self st)) ->
   length (snake (self st)) + 2 <= fuel ->
   exists r st', step rng fuel action st = (Returned r, st')).
Proof.
  intros d. split.
  - intros r st' H.
    destruct (step_returned _ _ _ _ _ _ H)
      as (st2 & st3 & hd & tl & o & _ & Hmove & Hate & Hs & _ & Hdone & Hrew & _ & ->).
    exists st2, st3, hd, tl.
    split; [exact Hmove|]. split; [exact Hate|]. split; [exact Hs|].
    split; [exact Hs|]. split; [exact Hdone|].
    intros Hd. rewrite Hrew, Hd. reflexivity.
  - intros Hact Hne Hoff Hfuel.
    destruct (move_snake_advanced (with_self (set_direction d) st) Hne)
      as [Hmove Hlen].
    apply (step_returns rng fuel action st _ Hact Hmove).
    + exact Hoff.
    + simpl in *. lia.
Qed.

Lemma step_done_iff_terminal_witness :
  exists r st',
    step far_rng 4 0 (play far_rng 0 []) = (Returned r, st') /\
    snake (self st') = [(8, 4); (7, 4)]%Z /\
    (done r = true <->
       wall_collision (8, 4)%Z \/ self_collision (8, 4)%Z [(7, 4)%Z] \/
       win [(8, 4); (7, 4)]%Z).
Proof.
  destruct (step_done_iff_terminal far_rng 4 0 (play far_rng 0 []))
    as [Hinv Hreturns].
  destruct Hreturns as (r & st' & Hstep).
  - lia.
  - vm_compute. discriminate.
  - apply (bool_decide_unpack _). vm_compute. exact I.
  - vm_compute. lia.
  - exists r, st'. split; [exact Hstep|].
    destruct (Hinv r st' Hstep) as (st2 & st3 & hd & tl & _ & _ & _ & Hs & Hdone & _).
    assert (Hbody : snake (self st') = [(8, 4); (7, 4)]%Z).
    { vm_compute in Hstep. injection Hstep as _ <-. reflexivity. }
    rewrite Hbody in Hs. injection Hs as <- <-.
    split; [exact Hbody | exact Hdone].
Defined.

(** X23. The reward of a returning [step] is decided by the done flag
    alone: 0 when done, 1 otherwise; it is never 10. *)
Lemma step_reward (rng : nat -> Z) (fuel : nat) (action : Z)
    (st st' : Store) (r : StepResult) :
  step rng fuel action st = (Returned r, st') ->
  reward r = (if done r then 0 else 1)%Z.
Proof.
  intros H.
  destruct (step_returned _ _ _ _ _ _ H)
    as (? & ? & ? & ? & ? & _ & _ & _ & _ & _ & _ & Hrew & _).
  exact Hrew.
Qed.

(** X24. The warning of a returning [step] is decided by the done flag of
    that same call: the log grows by exactly one warning when the call
    returns done and not at all otherwise, whatever the earlier calls
    returned. *)
Lemma step_warns_iff_done (rng : nat -> Z) (fuel : nat) (action : Z)
    (st st' : Store) (r : StepResult) :
  step rng fuel action st = (Returned r, st') ->
  log st' = log st ++ if done r then [Warn_step_after_done] else [].
Proof.
  intros H.
  destruct (step_returned _ _ _ _ _ _ H)
    as (st2 & st3 & hd & tl & o & _ & Hmove & Hate & _ & _ & _ & _ & _ & ->).
  simpl. f_equal.
  unfold check_if_ate_apple in Hate.
  apply bind_inv in Hate as ([] & s & Hloop & Hret).
  unfold ret in Hret. injection Hret as <-.
  rewrite (ate_loop_log _ _ _ _ _ _ Hloop).
  unfold move_snake, bind, get_self in Hmove.
  destruct (shift_from _ _); [discriminate|].
  unfold modify_self in Hmove. injection Hmove as <-. reflexivity.
Qed.



(** ** Scenarios from [reset] *)

(** C1. After [reset] and six steps straight ahead the apple is on the next
    tile. The seventh step puts the head on it and the body grows from two
    pieces to three, the episode goes on (done is false), and the reward is
    1, not 10: [check_if_ate_apple] hands [None] to the reward policy. *)
Theorem step_onto_apple_rewards_1 :
  let st := play far_rng 3 approach in
  snake (self st) = [(7, 10); (7, 9)]%Z /\
  apple (self st) = (7, 11)%Z /\
  global_snake_direction (self st) = 1%Z /\
  exists obs st',
    step far_rng 4 1 st = (Returned (mkStepResult obs 1 false), st') /\
    snake (self st') = [(7, 11); (7, 10); (7, 10)]%Z /\
    apple (self st') = (0, 0)%Z.
Proof.
  intros st. subst st.
  split; [vm_compute; reflexivity|].
  split; [vm_compute; reflexivity|].
  split; [vm_compute; reflexivity|].
  eexists. eexists. split; [vm_compute; reflexivity|].
  split; reflexivity.
Qed.

(** C2. Right after [reset] the heading is Right, whose movement offset
    (0, 1) is the third of the eight ray offsets. The apple ray cast that way
    measures 6, the opposite one 14; the rotated apple vector carries 14 at
    index 0 and the forward 6 at index 4. For heading Right the rotation
    sends any vector a0..a7 to a6 a7 a0 a1 a2 a3 a4 a5, so index 0 holds
    the ray cast with offset (0, -1), straight behind the head. *)
Theorem forward_ray_not_at_index_0 :
  let st := play far_rng 0 [] in
  global_snake_direction (self st) = 1%Z /\
  forward_offset 1 = (0, 1)%Z /\
  ray_offsets !! 2 = Some (0, 1)%Z /\
  ray_offsets !! 6 = Some (0, -1)%Z /\
  apple_ray [] 0 1 st = (Returned [6%Z], st) /\
  apple_ray [] 0 (-1) st = (Returned [14%Z], st) /\
  apple_ray_observation st =
    (Returned [14; 14; 14; 14; 6; 14; 14; 14]%Z, st) /\
  forall a0 a1 a2 a3 a4 a5 a6 a7 : Z,
    rotate_obs [a0; a1; a2; a3; a4; a5; a6; a7] st =
      (Returned [a6; a7; a0; a1; a2; a3; a4; a5], st).
Proof.
  intros st. subst st.
  repeat (split; [vm_compute; reflexivity|]).
  intros. reflexivity.
Qed.

(** C4. From [reset], eleven steps end with the head on the body: the
    eleventh call returns done and is the one that logs the warning. The
    twelfth call, made on the finished episode with the valid action 1,
    returns done false and logs nothing. *)
Theorem no_warning_after_done :
  exists rs final st_done,
    (reset ;;; run (tail_rng 2) 8 collision_actions) blank =
      (Returned (rs ++ [final]), st_done) /\
    Forall (fun r => done r = false) rs /\
    done final = true /\
    log st_done = [Warn_step_after_done] /\
    exists r st',
      step (tail_rng 2) 8 1 st_done = (Returned r, st') /\
      done r = false /\
      log st' = log st_done.
Proof.
  eexists (_ :: _ :: _ :: _ :: _ :: _ :: _ :: _ :: _ :: _ :: []).
  eexists. eexists.
  split; [vm_compute; reflexivity|].
  split; [repeat constructor|].
  split; [reflexivity|]. split; [reflexivity|].
  eexists. eexists. split; [vm_compute; reflexivity|].
  split; reflexivity.
Qed.

(** C9. From [reset], seven steps straight ahead with the respawns landing
    on the tail: the seventh call returns, not done, an observation of 25
    entries whose length field is 226. *)
Theorem length_field_exceeds_225 :
  exists rs final st',
    (reset ;;; run (tail_rng 223) 230 (approach ++ [1%Z])) blank =
      (Returned (rs ++ [final]), st') /\
    done final = false /\
    length (observation final) = 25 /\
    observation final !! 0 = Some 226%Z /\
    length (snake (self st')) = 226.
Proof.
  eexists (_ :: _ :: _ :: _ :: _ :: _ :: []). eexists. eexists.
  split; [vm_compute; reflexivity|].
  repeat split; vm_compute; reflexivity.
Qed.

(** ** Observations *)

(** X21. [reset] from any store, whatever it held: it returns, leaves the
    fixed body, apple and heading and the observation computed from them,
    and returns that observation; the random stream and the log are not
    touched. *)
Lemma reset_run (st : Store) :
  let obs := [2; 14; 14; 14; 14; 6; 14; 14; 14;
              4; 4; 7; 7; 10; 7; 7; 4;
              0; 14; 14; 14; 14; 14; 14; 14]%Z in
  reset st =
    (Returned obs,
     mkStore (mkWorld [(7, 4); (7, 3)]%Z (7, 11)%Z 1 obs) (cursor st) (log st)).
Proof. destruct st as [[s a d o] c l]. vm_compute. reflexivity. Qed.

(** What holds of every observation a returning [step] gives: 25 entries,
    the body length first, then the apple, wall and body rays, eight each
    and each within 0..14. *)
Lemma step_observation_shape (rng : nat -> Z) (fuel : nat) (action : Z)
    (st st' : Store) (r : StepResult) :
  step rng fuel action st = (Returned r, st') ->
  exists a b c,
    observation r = Z.of_nat (length (snake (self st'))) :: a ++ b ++ c /\
    length a = 8 /\ length b = 8 /\ length c = 8 /\
    Forall in_ray_range a /\ Forall in_ray_range b /\ Forall in_ray_range c /\
    length (observation r) = 25 /\
    state (self st') = observation r.
Proof.
  intros H.
  destruct (step_returned _ _ _ _ _ _ H)
    as (st2 & st3 & hd & tl & o & _ & _ & _ & Hs & Hgen & _ & _ & Hobs & ->).
  destruct (generate_state_run st3 hd tl Hs)
    as (a & b & c & Hgen' & La & Lb & Lc & Ba & Bb & Bc).
  rewrite Hgen' in Hgen. injection Hgen as Ho.
  exists a, b, c. rewrite Hobs, <- Ho. simpl.
  rewrite !length_app, La, Lb, Lc. auto 10.
Qed.

(** The store in which the seventh step straight ahead checks for growth:
    the head has just reached the apple. *)
Lemma head_on_apple_reached :
  exists st2,
    move_snake (play far_rng 3 approach) = (Returned tt, st2) /\
    snake (self st2) = snake (self head_on_apple) /\
    apple (self st2) = apple (self head_on_apple).
Proof. eexists. split; [vm_compute; reflexivity|]. split; reflexivity. Qed.

(** ** Direction mapper: more facts *)

(** X1. The turning transform keeps a heading code within 0..4, whatever
    the action (an action other than 0 and 2 leaves it as it is). *)
Theorem relative_to_global_direction_in_range (h action : Z) :
  heading_code h -> heading_code (relative_to_global_direction h action).
Proof.
  unfold heading_code, relative_to_global_direction. intros Hh.
  repeat case_decide; lia.
Qed.

Lemma relative_to_global_direction_in_range_witness :
  heading_code 4 /\ heading_code (relative_to_global_direction 4 0).
Proof.
  assert (H : heading_code 4) by (unfold heading_code; lia).
  split; [exact H | apply relative_to_global_direction_in_range; exact H].
Defined.

(** X2. On the heading codes a right turn and a left turn undo each other,
    and it takes five equal turns, not four, to come back to a heading. *)
Theorem turns_undo_each_other (h : Z) :
  heading_code h ->
  relative_to_global_direction (relative_to_global_direction h 0) 2 = h /\
  relative_to_global_direction (relative_to_global_direction h 2) 0 = h /\
  Nat.iter 5 (fun d => relative_to_global_direction d 0) h = h /\
  Nat.iter 5 (fun d => relative_to_global_direction d 2) h = h /\
  Nat.iter 4 (fun d => relative_to_global_direction d 0) h <> h /\
  Nat.iter 4 (fun d => relative_to_global_direction d 2) h <> h.
Proof.
  unfold heading_code. intros Hh.
  assert (h = 0 \/ h = 1 \/ h = 2 \/ h = 3 \/ h = 4)%Z as Hcases by lia.
  destruct Hcases as [-> | [-> | [-> | [-> | ->]]]];
    repeat split; try reflexivity; vm_compute; discriminate.
Qed.

Lemma turns_undo_each_other_witness :
  heading_code 3 /\
  relative_to_global_direction (relative_to_global_direction 3 0) 2 = 3%Z.
Proof.
  assert (H : heading_code 3) by (unfold heading_code; lia).
  split; [exact H | apply (turns_undo_each_other 3 H)].
Defined.

(** X3. What a turn does to the movement: action 0 turns the head's
    displacement a quarter turn clockwise, except at heading 3 where the
    displacement stays Left; action 2 turns it a quarter turn the other way,
    except at heading 4 where it stays Left; action 1 keeps it. No action
    ever reverses the displacement. *)
Theorem turn_changes_movement (h : Z) :
  heading_code h ->
  (h <> 3%Z ->
   forward_offset (relative_to_global_direction h 0) = clockwise (forward_offset h)) /\
  (h <> 4%Z ->
   forward_offset (relative_to_global_direction h 2) = counterclockwise (forward_offset h)) /\
  forward_offset (relative_to_global_direction 3 0) = forward_offset 3 /\
  forward_offset (relative_to_global_direction 4 2) = forward_offset 4 /\
  forward_offset (relative_to_global_direction h 1) = forward_offset h /\
  (forall action,
      forward_offset (relative_to_global_direction h action)
        <> ((- (forward_offset h).1)%Z, (- (forward_offset h).2)%Z)).
Proof.
  unfold heading_code. intros Hh.
  assert (h = 0 \/ h = 1 \/ h = 2 \/ h = 3 \/ h = 4)%Z as Hcases by lia.
  destruct Hcases as [-> | [-> | [-> | [-> | ->]]]];
    (split; [intros Hne; try reflexivity; contradiction|]);
    (split; [intros Hne; try reflexivity; contradiction|]);
    (split; [reflexivity|]); (split; [reflexivity|]); (split; [reflexivity|]);
    intros action; unfold relative_to_global_direction;
    repeat case_decide; vm_compute; discriminate.
Qed.

Lemma turn_changes_movement_witness :
  heading_code 1 /\
  forward_offset (relative_to_global_direction 1 0) = (1, 0)%Z.
Proof.
  assert (H : heading_code 1) by (unfold heading_code; lia).
  split; [exact H|].
  destruct (turn_changes_movement 1 H) as (Hcw & _).
  rewrite Hcw by discriminate. reflexivity.
Defined.

(** ** Movement: more facts *)

Lemma shift_from_closed (hd : Position) (tl : list Position) :
  shift_from (length tl) (hd :: tl) = hd :: take (length tl) (hd :: tl).
Proof.
  apply list_eq. intros i.
  rewrite shift_from_lookup by (simpl; lia).
  destruct i as [|k].
  - destruct (decide (1 <= 0 <= length tl)); [lia | reflexivity].
  - replace (S k - 1) with k by lia.
    change ((hd :: take (length tl) (hd :: tl)) !! S k)
      with (take (length tl) (hd :: tl) !! k).
    destruct (decide (1 <= S k <= length tl)).
    + rewrite lookup_take_lt by lia. reflexivity.
    + rewrite lookup_take_ge by lia.
      apply lookup_ge_None_2. simpl. lia.
Qed.

Lemma advanced_closed (d : Z) (hd : Position) (tl : list Position) :
  advanced d (hd :: tl) = move_head d hd :: take (length tl) (hd :: tl).
Proof.
  unfold advanced.
  replace (length (hd :: tl) - 1) with (length tl) by (simpl; lia).
  rewrite shift_from_closed. reflexivity.
Qed.

Lemma move_head_distance (d : Z) (p : Position) :
  manhattan (move_head d p) p = 1%Z.
Proof.
  unfold manhattan, move_head. repeat case_decide; simpl; lia.
Qed.

Lemma move_snake_moved (st : Store) (hd : Position) (tl : list Position) :
  snake (self st) = hd :: tl ->
  move_snake st =
    (Returned tt,
     with_self (set_snake (move_head (global_snake_direction (self st)) hd
                             :: take (length tl) (hd :: tl))) st).
Proof.
  intros Hs.
  destruct (move_snake_advanced st) as [Hrun _]; [rewrite Hs; discriminate|].
  rewrite Hrun, Hs, advanced_closed. reflexivity.
Qed.

(** X4. The classic snake step, in closed form: on a non-empty body
    [move_snake] returns and leaves the moved head followed by the old body
    without its last piece, so the length is kept and every piece but the
    head takes the place of the piece before it; nothing else of the store
    changes. *)
Theorem move_snake_closed_form (st : Store) (hd : Position) (tl : list Position) :
  snake (self st) = hd :: tl ->
  move_snake st =
    (Returned tt,
     with_self (set_snake (move_head (global_snake_direction (self st)) hd
                             :: take (length tl) (hd :: tl))) st) /\
  length (move_head (global_snake_direction (self st)) hd
            :: take (length tl) (hd :: tl)) = length (hd :: tl).
Proof.
  intros Hs. split; [exact (move_snake_moved st hd tl Hs)|].
  simpl. rewrite length_take. simpl. lia.
Qed.

Lemma move_snake_closed_form_witness :
  let st := mkStore (mkWorld [(7, 4); (7, 3); (6, 3)]%Z (7, 11)%Z 0 []) 5 [] in
  snake (self st) = [(7, 4); (7, 3); (6, 3)]%Z /\
  move_snake st =
    (Returned tt, with_self (set_snake [(6, 4); (7, 4); (7, 3)]%Z) st).
Proof.
  intros st. split; [reflexivity|].
  destruct (move_snake_closed_form st (7, 4)%Z [(7, 3); (6, 3)]%Z eq_refl)
    as [Hrun _].
  exact Hrun.
Defined.

Lemma move_snake_empty_edge (st : Store) :
  snake (self st) = [] -> move_snake st = (Raised IndexError, st).
Proof.
  intros Hs. unfold move_snake, bind, get_self. rewrite Hs. reflexivity.
Qed.

(** X6. After [move_snake] the piece behind the head sits where the head
    was, one tile away from the new head: the head never lands on its own
    neck, and a body in one piece stays in one piece. *)
Theorem move_snake_keeps_chain (st : Store) (hd nk : Position) (tl : list Position) :
  snake (self st) = hd :: nk :: tl ->
  exists hd' body',
    move_snake st = (Returned tt, with_self (set_snake (hd' :: hd :: body')) st) /\
    manhattan hd' hd = 1%Z /\
    hd' <> hd /\
    (chain (hd :: nk :: tl) -> chain (hd' :: hd :: body')).
Proof.
  intros Hs.
  pose proof (move_snake_moved st hd (nk :: tl) Hs) as Hrun.
  exists (move_head (global_snake_direction (self st)) hd),
         (take (length tl) (nk :: tl)).
  pose proof (move_head_distance (global_snake_direction (self st)) hd) as Hd.
  split; [exact Hrun|]. split; [exact Hd|].
  split.
  { intros Heq. rewrite Heq in Hd. unfold manhattan in Hd. lia. }
  intros Hchain [|i] p q Hp Hq.
  - simpl in Hp, Hq. injection Hp as <-. injection Hq as <-. lia.
  - change ((hd :: take (length tl) (nk :: tl)) !! i = Some p) in Hp.
    change ((hd :: take (length tl) (nk :: tl)) !! S i = Some q) in Hq.
    change (hd :: take (length tl) (nk :: tl))
      with (take (S (length tl)) (hd :: nk :: tl)) in Hp, Hq.
    apply lookup_take_Some in Hp as [Hp _].
    apply lookup_take_Some in Hq as [Hq _].
    exact (Hchain i p q Hp Hq).
Qed.

Lemma move_snake_keeps_chain_witness :
  let st := mkStore (mkWorld [(7, 4); (7, 3)]%Z (7, 11)%Z 2 []) 0 [] in
  snake (self st) = [(7, 4); (7, 3)]%Z /\
  exists hd' body',
    move_snake st = (Returned tt, with_self (set_snake (hd' :: (7, 4)%Z :: body')) st) /\
    hd' <> (7, 4)%Z.
Proof.
  intros st. split; [reflexivity|].
  destruct (move_snake_keeps_chain st (7, 4)%Z (7, 3)%Z [] eq_refl)
    as (hd' & body' & Hrun & _ & Hne & _).
  exists hd', body'. split; [exact Hrun | exact Hne].
Defined.

(** ** Growth: more facts *)

Lemma drawn_apple_in_grid (rng : nat -> Z) (c : nat) :
  in_grid (drawn_apple rng c).
Proof.
  unfold in_grid, drawn_apple. simpl fst. simpl snd.
  change (14 - 0 + 1)%Z with 15%Z.
  pose proof (Z.mod_pos_bound (rng c) 15 ltac:(lia)).
  pose proof (Z.mod_pos_bound (rng (S c)) 15 ltac:(lia)).
  lia.
Qed.

(** X7. Whatever the random stream gives, [generate_new_random_apple]
    returns with the apple at (row, column) where the row is the first of two
    draws and the column the second, each reduced to 0..14, so the apple is
    on a tile of the grid; the two draws are consumed and the body, the
    heading, the observation and the log are left alone. *)
Theorem generate_new_random_apple_in_grid (rng : nat -> Z) (st : Store) :
  let row := (rng (cursor st) mod 15)%Z in
  let column := (rng (S (cursor st)) mod 15)%Z in
  generate_new_random_apple rng st =
    (Returned tt,
     mkStore (mkWorld (snake (self st)) (row, column)
                (global_snake_direction (self st)) (state (self st)))
       (S (S (cursor st))) (log st)) /\
  in_grid (row, column).
Proof.
  split; [reflexivity|]. apply (drawn_apple_in_grid rng (cursor st)).
Qed.

(** X8. With no piece on the apple, the growth phase (given fuel beyond the
    body length) returns [None] and changes nothing: no piece is added and
    no random number is drawn. *)
Theorem check_if_ate_apple_nothing_to_eat (rng : nat -> Z) (fuel : nat)
    (st : Store) :
  apple (self st) ∉ snake (self st) ->
  length (snake (self st)) < fuel ->
  check_if_ate_apple rng fuel st = (Returned PyNone, st).
Proof.
  intros Hout Hfuel. unfold check_if_ate_apple.
  assert (Hloop : ate_loop rng fuel 0 st = (Returned tt, st)).
  { replace fuel
      with (length (snake (self st)) + S (fuel - length (snake (self st)) - 1))
      by lia.
    rewrite ate_loop_skip.
    - apply ate_loop_end. simpl. lia.
    - intros k p _ Hp Heq. apply Hout. rewrite <- Heq.
      apply (list_elem_of_lookup_2 _ k). exact Hp.
    - simpl. lia. }
  rewrite (bind_returned _ _ _ _ _ Hloop). reflexivity.
Qed.

Lemma check_if_ate_apple_nothing_to_eat_witness :
  (apple (self (play far_rng 0 [])) ∉ snake (self (play far_rng 0 []))) /\
  check_if_ate_apple far_rng 3 (play far_rng 0 []) =
    (Returned PyNone, play far_rng 0 []).
Proof.
  assert (H : apple (self (play far_rng 0 [])) ∉ snake (self (play far_rng 0 [])))
    by (apply (bool_decide_unpack _); vm_compute; exact I).
  split; [exact H|].
  apply check_if_ate_apple_nothing_to_eat; [exact H | vm_compute; lia].
Defined.

(** X9. The growth phase never raises and never touches a piece already
    in the body: whatever the fuel, the stream and the store, it ends by
    returning [None] or by running out of fuel, and the body it leaves is the
    old body followed by as many copies of its last piece as there were
    respawns (two draws each); heading, observation and log are unchanged,
    and an apple that was respawned lies on the grid. *)
Theorem growth_only_appends (rng : nat -> Z) (fuel : nat) (st st' : Store)
    (o : outcome pyvalue) :
  check_if_ate_apple rng fuel st = (o, st') ->
  (o = Returned PyNone \/ o = OutOfFuel) /\
  exists n,
    snake (self st') =
      snake (self st) ++ replicate n (default (0, 0)%Z (last (snake (self st)))) /\
    cursor st' = cursor st + 2 * n /\
    global_snake_direction (self st') = global_snake_direction (self st) /\
    state (self st') = state (self st) /\
    log st' = log st /\
    (n = 0 /\ apple (self st') = apple (self st) \/
     0 < n /\ in_grid (apple (self st'))).
Proof.
  unfold check_if_ate_apple, bind. intros Hrun.
  destruct (ate_loop rng fuel 0 st) as [[u|f|] s1] eqn:Hloop;
    destruct (ate_loop_extends _ _ _ _ _ _ Hloop)
      as (Ho & n & Hs & Hc & Hd & Hst & Hl & Ha);
    unfold ret in Hrun; injection Hrun as <- <-;
    (split; [| exists n; repeat (split; [assumption|]);
               destruct Ha as [Ha | [Hn Ha]];
               [left; exact Ha
               | right; split; [exact Hn | rewrite Ha; apply drawn_apple_in_grid]]]).
  - left. reflexivity.
  - destruct Ho; discriminate.
  - right. reflexivity.
Qed.

Lemma growth_only_appends_witness :
  exists st',
    check_if_ate_apple (tail_rng 1) 6 head_on_apple = (Returned PyNone, st') /\
    snake (self st') = snake (self head_on_apple) ++ replicate 2 (7, 10)%Z.
Proof.
  eexists. split; [vm_compute; reflexivity|].
  edestruct (growth_only_appends (tail_rng 1) 6 head_on_apple)
    as (_ & n & Hs & _); [vm_compute; reflexivity|].
  reflexivity.
Defined.

Lemma ate_loop_stuck (rng : nat -> Z) (t : Position) (fuel i : nat) (st : Store) :
  apple (self st) ∈ drop i (snake (self st)) ->
  last (snake (self st)) = Some t ->
  always_draws rng (cursor st) t ->
  fst (ate_loop rng fuel i st) = OutOfFuel.
Proof.
  revert i st. induction fuel as [|fuel IH]; intros i st Hin Ht Hrng;
    [reflexivity|].
  simpl. unfold bind at 1, get_self.
  destruct (snake (self st) !! i) as [p|] eqn:Hp.
  - rewrite (drop_S _ _ _ Hp) in Hin.
    destruct (decide (p = apple (self st))) as [Heq|Hne].
    + unfold bind at 1. rewrite (grow_run rng st t Ht).
      apply IH; simpl.
      * pose proof (Hrng 0) as H0. rewrite Nat.mul_0_r, Nat.add_0_r in H0.
        rewrite H0.
        apply (list_elem_of_lookup_2 _ (length (snake (self st)) - S i)).
        rewrite lookup_drop.
        pose proof (lookup_lt_Some _ _ _ Hp).
        apply list_lookup_middle. lia.
      * apply last_snoc.
      * intros n. specialize (Hrng (S n)).
        replace (S (S (cursor st)) + 2 * n) with (cursor st + 2 * S n) by lia.
        exact Hrng.
    + unfold bind, ret. apply IH; [|exact Ht | exact Hrng].
      apply elem_of_cons in Hin as [Hin|Hin]; [congruence | exact Hin].
  - apply lookup_ge_None_1 in Hp. rewrite drop_ge in Hin by exact Hp.
    inversion Hin.
Qed.

(** X10. The growth phase need not end: when a piece is on the apple and
    every respawn lands on the tile of the last piece, the scan keeps finding
    the new apple on the copy it has just appended, and no amount of fuel
    lets the call return. *)
Theorem growth_can_run_forever (rng : nat -> Z) (t : Position) (st : Store) :
  apple (self st) ∈ snake (self st) ->
  last (snake (self st)) = Some t ->
  always_draws rng (cursor st) t ->
  forall fuel, fst (check_if_ate_apple rng fuel st) = OutOfFuel.
Proof.
  intros Hin Ht Hrng fuel. unfold check_if_ate_apple, bind.
  pose proof (ate_loop_stuck rng t fuel 0 st Hin Ht Hrng) as H.
  destruct (ate_loop rng fuel 0 st) as [[u|f|] s1]; simpl in H;
    try discriminate. reflexivity.
Qed.

Lemma stuck_rng_always_draws : always_draws stuck_rng 0 (7, 10)%Z.
Proof.
  intros n. unfold drawn_apple, stuck_rng.
  replace (0 + 2 * n) with (2 * n) by lia.
  rewrite Nat.even_succ, Nat.odd_even, Nat.even_even. reflexivity.
Defined.

Lemma growth_can_run_forever_witness :
  apple (self head_on_apple) ∈ snake (self head_on_apple) /\
  last (snake (self head_on_apple)) = Some (7, 10)%Z /\
  always_draws stuck_rng (cursor head_on_apple) (7, 10)%Z /\
  fst (check_if_ate_apple stuck_rng 1000 head_on_apple) = OutOfFuel.
Proof.
  assert (Hin : apple (self head_on_apple) ∈ snake (self head_on_apple))
    by (vm_compute; left).
  split; [exact Hin|]. split; [reflexivity|].
  split; [exact stuck_rng_always_draws|].
  apply (growth_can_run_forever stuck_rng (7, 10)%Z head_on_apple Hin eq_refl
           stuck_rng_always_draws).
Defined.

(** ** Collision: more facts *)

(** X11. Moving and then checking for self collision: the check is true
    exactly when the moved head lands on a piece of the old body other than
    the old head and the old last piece (the tile the tail leaves is free).
    In particular a body of one or two pieces cannot hit itself by moving. *)
Theorem hit_itself_after_move (st : Store) (hd : Position) (tl : list Position) :
  snake (self st) = hd :: tl ->
  let hd' := move_head (global_snake_direction (self st)) hd in
  exists b,
    bind move_snake (fun _ => check_if_hit_itself) st =
      (Returned b,
       with_self (set_snake (hd' :: take (length tl) (hd :: tl))) st) /\
    (b = true <-> exists i, S i < length tl /\ tl !! i = Some hd') /\
    (length tl <= 1 -> b = false).
Proof.
  intros Hs hd'.
  pose proof (move_snake_moved st hd tl Hs) as Hmove.
  fold hd' in Hmove.
  set (st2 := with_self (set_snake (hd' :: take (length tl) (hd :: tl))) st) in *.
  destruct (check_if_hit_itself_run st2 hd' (take (length tl) (hd :: tl)) eq_refl)
    as [b Hb].
  exists b. rewrite (bind_returned _ _ _ _ _ Hmove). split; [exact Hb|].
  apply check_if_hit_itself_inv in Hb as (_ & hd2 & tl2 & Hs2 & Hiff).
  simpl in Hs2. injection Hs2 as <- <-.
  assert (Hne : hd' <> hd).
  { pose proof (move_head_distance (global_snake_direction (self st)) hd) as Hd.
    fold hd' in Hd. intros Heq. rewrite Heq in Hd. unfold manhattan in Hd. lia. }
  assert (Hchar : b = true <-> exists i, S i < length tl /\ tl !! i = Some hd').
  { rewrite Hiff. unfold self_collision. rewrite list_elem_of_lookup. split.
    - intros [k Hk]. apply lookup_take_Some in Hk as [Hk Hlt].
      destruct k as [|i]; [simpl in Hk; congruence|].
      exists i. split; [lia | exact Hk].
    - intros (i & Hi & Hl). exists (S i).
      rewrite lookup_take_lt by lia. exact Hl. }
  split; [exact Hchar|].
  intros Hlen. destruct b; [|reflexivity].
  destruct (proj1 Hchar eq_refl) as (i & Hi & Hl).
  apply lookup_lt_Some in Hl. lia.
Qed.

Lemma hit_itself_after_move_witness :
  let st := mkStore (mkWorld [(7, 4); (7, 3)]%Z (7, 11)%Z 1 []) 0 [] in
  snake (self st) = [(7, 4); (7, 3)]%Z /\
  bind move_snake (fun _ => check_if_hit_itself) st =
    (Returned false, with_self (set_snake [(7, 5); (7, 4)]%Z) st).
Proof.
  intros st. split; [reflexivity|].
  destruct (hit_itself_after_move st (7, 4)%Z [(7, 3)%Z] eq_refl)
    as (b & Hrun & _ & Hshort).
  rewrite (Hshort ltac:(simpl; lia)) in Hrun. exact Hrun.
Defined.

(** ** Episode controller: every way a call can end *)

Lemma bind_raised {A B} (m : M A) (k : A -> M B) (st st' : Store) (f : fault) :
  m st = (Raised f, st') -> bind m k st = (Raised f, st').
Proof. intros H. unfold bind. rewrite H. reflexivity. Qed.

Lemma bind_out_of_fuel {A B} (m : M A) (k : A -> M B) (st st' : Store) :
  m st = (OutOfFuel, st') -> bind m k st = (OutOfFuel, st').
Proof. intros H. unfold bind. rewrite H. reflexivity. Qed.

(** The three ways [step] can go: the assertion fails; the body is empty;
    or movement is done and the growth scan either runs out of fuel or
    returns, after which [step] returns. *)
Lemma step_trace (rng : nat -> Z) (fuel : nat) (action : Z) (st st' : Store)
    (o : outcome StepResult) :
  step rng fuel action st = (o, st') ->
  let d := relative_to_global_direction (global_snake_direction (self st)) action in
  let st2 := with_self (set_snake (advanced d (snake (self st))))
               (with_self (set_direction d) st) in
  (Discrete_contains 3 action = false /\ o = Raised AssertionError /\ st' = st) \/
  (Discrete_contains 3 action = true /\ snake (self st) = [] /\
   o = Raised IndexError /\ st' = with_self (set_direction d) st) \/
  (Discrete_contains 3 action = true /\ snake (self st) <> [] /\
   exists o3 st3,
     ate_loop rng fuel 0 st2 = (o3, st3) /\
     ((o3 = OutOfFuel /\ o = OutOfFuel /\ st' = st3) \/
      (o3 = Returned tt /\
       exists r, o = Returned r /\
         st' = mkStore (set_state (observation r) (self st3)) (cursor st3)
                 (log st3 ++ if done r then [Warn_step_after_done] else [])))).
Proof.
  intros Hstep d st2.
  destruct (Discrete_contains 3 action) eqn:Hvalid.
  - right.
    assert (Hpre : step rng fuel action st =
              bind move_snake (fun _ =>
                ate_apple <- check_if_ate_apple rng fuel ;;
                hit_wall <- check_if_hit_wall ;;
                died <- (if hit_wall then ret true else check_if_hit_itself) ;;
                won <- check_if_won ;;
                generate_state ;;;
                (if died || won then logger_warn Warn_step_after_done else ret tt) ;;;
                w <- get_self ;;
                ret (mkStepResult (state w)
                       (if negb (died || won)
                        then (if truthy ate_apple then 10%Z else 1%Z) else 0%Z)
                       (died || won)))
                (with_self (set_direction d) st)).
    { unfold step. rewrite Hvalid. reflexivity. }
    destruct (snake (self st)) as [|hd tl] eqn:Hs.
    + left. split; [reflexivity|]. split; [reflexivity|].
      rewrite Hpre in Hstep.
      rewrite (bind_raised _ _ _ _ _
                 (move_snake_empty_edge (with_self (set_direction d) st) Hs))
        in Hstep.
      injection Hstep as <- <-. split; reflexivity.
    + right. split; [reflexivity|]. split; [discriminate|].
      assert (Hmove : move_snake (with_self (set_direction d) st)
                      = (Returned tt, st2)).
      { destruct (move_snake_advanced (with_self (set_direction d) st))
          as [Hm _]; [simpl; rewrite Hs; discriminate|].
        rewrite Hm. subst st2. simpl. rewrite Hs. reflexivity. }
      destruct (ate_loop rng fuel 0 st2) as [o3 st3] eqn:Hloop.
      exists o3, st3. split; [reflexivity|].
      destruct (ate_loop_extends _ _ _ _ _ _ Hloop) as ([-> | ->] & n & Hbody & _).
      * right. split; [reflexivity|].
        assert (Hate : check_if_ate_apple rng fuel st2 = (Returned PyNone, st3)).
        { unfold check_if_ate_apple. rewrite (bind_returned _ _ _ _ _ Hloop).
          reflexivity. }
        assert (exists hd3 tl3, snake (self st3) = hd3 :: tl3) as (hd3 & tl3 & Hs3).
        { rewrite Hbody. subst st2. simpl. rewrite advanced_closed. simpl. eauto. }
        destruct (step_run rng fuel action st st2 st3 PyNone hd3 tl3
                    Hvalid Hmove Hate Hs3) as (r & st'' & Hret).
        rewrite Hret in Hstep. injection Hstep as <- <-.
        exists r. split; [reflexivity|].
        destruct (step_returned _ _ _ _ _ _ Hret)
          as (s2 & s3 & ? & ? & ob & _ & Hm' & Ha' & _ & _ & _ & _ & Hob & ->).
        pose proof (eq_trans (eq_sym Hmove) Hm') as E2. injection E2 as <-.
        pose proof (eq_trans (eq_sym Hate) Ha') as E3. injection E3 as <-.
        rewrite Hob. reflexivity.
      * left. split; [reflexivity|].
        rewrite Hpre, (bind_returned _ _ _ _ _ Hmove) in Hstep.
        assert (Hate : check_if_ate_apple rng fuel st2 = (OutOfFuel, st3)).
        { unfold check_if_ate_apple, bind. rewrite Hloop. reflexivity. }
        rewrite (bind_out_of_fuel _ _ _ _ Hate) in Hstep.
        injection Hstep as <- <-. split; reflexivity.
  - left. unfold step in Hstep. rewrite Hvalid in Hstep.
    injection Hstep as <- <-. repeat split.
Qed.

Lemma heading_code_turn (h action : Z) :
  heading_code h -> heading_code (relative_to_global_direction h action).
Proof.
  unfold heading_code, relative_to_global_direction. intros Hh.
  repeat case_decide; lia.
Qed.

Lemma manhattan_same (p : Position) : manhattan p p = 0%Z.
Proof. unfold manhattan. lia. Qed.

Lemma advanced_chain (d : Z) (body : list Position) :
  chain body -> chain (advanced d body).
Proof.
  destruct body as [|hd tl]; [intros _ i p q Hp; discriminate|].
  rewrite advanced_closed. intros Hchain [|i] p q Hp Hq.
  - simpl in Hp. injection Hp as <-.
    change (take (length tl) (hd :: tl) !! 0 = Some q) in Hq.
    apply lookup_take_Some in Hq as [Hq _]. simpl in Hq. injection Hq as <-.
    rewrite move_head_distance. lia.
  - change (take (length tl) (hd :: tl) !! i = Some p) in Hp.
    change (take (length tl) (hd :: tl) !! S i = Some q) in Hq.
    apply lookup_take_Some in Hp as [Hp _].
    apply lookup_take_Some in Hq as [Hq _].
    exact (Hchain i p q Hp Hq).
Qed.

Lemma chain_extend (body : list Position) (n : nat) :
  chain body ->
  chain (body ++ replicate n (default (0, 0)%Z (last body))).
Proof.
  intros Hchain i p q Hp Hq.
  destruct (decide (S i < length body)) as [Hlt|Hge].
  - rewrite lookup_app_l in Hp by lia. rewrite lookup_app_l in Hq by lia.
    exact (Hchain i p q Hp Hq).
  - rewrite lookup_app_r in Hq by lia.
    apply lookup_replicate_1 in Hq as [-> _].
    destruct (decide (i < length body)) as [Hi|Hi].
    + rewrite lookup_app_l in Hp by lia.
      rewrite last_lookup. replace (pred (length body)) with i by lia.
      rewrite Hp. simpl. rewrite manhattan_same. lia.
    + rewrite lookup_app_r in Hp by lia.
      apply lookup_replicate_1 in Hp as [-> _].
      rewrite manhattan_same. lia.
Qed.

(** X12. The body after a call of [step] with a valid action on a body
    [hd :: tl], however the call ends (returned, or out of fuel in the growth
    scan): the head moved one tile along the turned heading, then the old
    body without its last piece, then one copy of the new last piece per
    respawn. The heading is the turned heading. *)
Theorem step_body (rng : nat -> Z) (fuel : nat) (action : Z) (st st' : Store)
    (o : outcome StepResult) (hd : Position) (tl : list Position) :
  (0 <= action <= 2)%Z ->
  snake (self st) = hd :: tl ->
  step rng fuel action st = (o, st') ->
  let d := relative_to_global_direction (global_snake_direction (self st)) action in
  let moved := move_head d hd :: take (length tl) (hd :: tl) in
  exists n,
    snake (self st') = moved ++ replicate n (default (0, 0)%Z (last moved)) /\
    cursor st' = cursor st + 2 * n /\
    global_snake_direction (self st') = d /\
    (o = OutOfFuel \/ exists r, o = Returned r).
Proof.
  intros Hact Hs Hstep d moved.
  destruct (step_trace _ _ _ _ _ _ Hstep)
    as [(Hv & _) | [(_ & He & _) | (_ & _ & o3 & st3 & Hloop & Hend)]].
  - unfold Discrete_contains in Hv.
    rewrite !bool_decide_eq_true_2 in Hv by lia. discriminate.
  - rewrite Hs in He. discriminate.
  - destruct (ate_loop_extends _ _ _ _ _ _ Hloop)
      as (_ & n & Hbody & Hc & Hd & _).
    simpl in Hbody, Hc, Hd. rewrite Hs, advanced_closed in Hbody.
    exists n.
    destruct Hend as [(_ & -> & ->) | (_ & r & -> & ->)]; simpl;
      (split; [exact Hbody|]); (split; [exact Hc|]); (split; [exact Hd|]).
    + left. reflexivity.
    + right. exists r. reflexivity.
Qed.

Lemma step_body_witness :
  exists o st',
    (0 <= 0 <= 2)%Z /\
    snake (self (play far_rng 0 [])) = [(7, 4); (7, 3)]%Z /\
    step far_rng 3 0 (play far_rng 0 []) = (o, st') /\
    exists n, snake (self st') = [(8, 4); (7, 4)]%Z ++ replicate n (7, 4)%Z.
Proof.
  eexists. eexists. split; [lia|]. split; [reflexivity|].
  split; [vm_compute; reflexivity|].
  edestruct (step_body far_rng 3 0 (play far_rng 0 [])) as (n & Hbody & _);
    [lia | reflexivity | vm_compute; reflexivity |].
  exists n. exact Hbody.
Defined.

(** X13. What every call of [step] keeps, whatever the action, the stream,
    the fuel and the way the call ends: a heading code stays a heading code,
    an apple on the grid stays on the grid, the body never gets shorter and a
    non-empty body stays non-empty, a body in one piece stays in one piece,
    the random stream only advances and the log only grows. *)
Theorem step_invariants (rng : nat -> Z) (fuel : nat) (action : Z)
    (st st' : Store) (o : outcome StepResult) :
  step rng fuel action st = (o, st') ->
  (heading_code (global_snake_direction (self st)) ->
   heading_code (global_snake_direction (self st'))) /\
  (in_grid (apple (self st)) -> in_grid (apple (self st'))) /\
  length (snake (self st)) <= length (snake (self st')) /\
  (snake (self st) <> [] -> snake (self st') <> []) /\
  (chain (snake (self st)) -> chain (snake (self st'))) /\
  cursor st <= cursor st' /\
  (exists more, log st' = log st ++ more).
Proof.
  intros Hstep.
  destruct (step_trace _ _ _ _ _ _ Hstep)
    as [(_ & _ & ->) | [(_ & He & _ & ->) | (_ & Hne & o3 & st3 & Hloop & Hend)]].
  - split; [tauto|]. split; [tauto|]. split; [lia|]. split; [tauto|].
    split; [tauto|]. split; [lia|]. exists []. rewrite app_nil_r. reflexivity.
  - simpl. split; [apply heading_code_turn|]. split; [tauto|]. split; [lia|].
    split; [tauto|]. split; [tauto|]. split; [lia|].
    exists []. rewrite app_nil_r. reflexivity.
  - destruct (ate_loop_extends _ _ _ _ _ _ Hloop)
      as (_ & n & Hbody & Hc & Hd & _ & Hl & Ha).
    simpl in Hbody, Hc, Hd, Hl, Ha.
    destruct (move_snake_advanced
                (with_self (set_direction
                   (relative_to_global_direction
                      (global_snake_direction (self st)) action)) st) Hne)
      as [_ Hlen]. simpl in Hlen.
    assert (Hfacts :
      (heading_code (global_snake_direction (self st)) ->
       heading_code (global_snake_direction (self st3))) /\
      (in_grid (apple (self st)) -> in_grid (apple (self st3))) /\
      length (snake (self st)) <= length (snake (self st3)) /\
      (snake (self st) <> [] -> snake (self st3) <> []) /\
      (chain (snake (self st)) -> chain (snake (self st3))) /\
      cursor st <= cursor st3).
    { split; [rewrite Hd; apply heading_code_turn|].
      split.
      { destruct Ha as [[_ ->] | [_ ->]];
          [tauto | intros _; apply drawn_apple_in_grid]. }
      assert (length (snake (self st)) <= length (snake (self st3))) as Hle.
      { rewrite Hbody, length_app, Hlen. lia. }
      split; [exact Hle|]. split.
      { intros _ Hnil. rewrite Hnil in Hle.
        destruct (snake (self st)); [contradiction | simpl in Hle; lia]. }
      split; [|lia].
      intros Hchain. rewrite Hbody. apply chain_extend, advanced_chain, Hchain. }
    destruct Hend as [(_ & _ & ->) | (_ & r & _ & ->)].
    + destruct Hfacts as (H1 & H2 & H3 & H4 & H5 & H6).
      split; [exact H1|]. split; [exact H2|]. split; [exact H3|].
      split; [exact H4|]. split; [exact H5|]. split; [exact H6|].
      exists []. rewrite Hl, app_nil_r. reflexivity.
    + simpl. destruct Hfacts as (H1 & H2 & H3 & H4 & H5 & H6).
      split; [exact H1|]. split; [exact H2|]. split; [exact H3|].
      split; [exact H4|]. split; [exact H5|]. split; [exact H6|].
      rewrite Hl. eauto.
Qed.

Lemma step_invariants_witness :
  exists o st',
    step (tail_rng 1) 6 1 (play far_rng 3 approach) = (o, st') /\
    length (snake (self (play far_rng 3 approach))) <= length (snake (self st')) /\
    cursor (play far_rng 3 approach) <= cursor st'.
Proof.
  eexists. eexists. split; [vm_compute; reflexivity|].
  edestruct (step_invariants (tail_rng 1) 6 1 (play far_rng 3 approach))
    as (_ & _ & Hlen & _ & _ & Hc & _); [vm_compute; reflexivity|].
  split; [exact Hlen | exact Hc].
Defined.

(** What a returning [step] leaves, in terms of the store it started from. *)
Lemma step_returned_facts (rng : nat -> Z) (fuel : nat) (action : Z)
    (st st' : Store) (r : StepResult) :
  step rng fuel action st = (Returned r, st') ->
  let d := relative_to_global_direction (global_snake_direction (self st)) action in
  exists hd tl n tl',
    snake (self st) = hd :: tl /\
    snake (self st') = move_head d hd :: tl' /\
    tl' = take (length tl) (hd :: tl)
            ++ replicate n (default (0, 0)%Z
                 (last (move_head d hd :: take (length tl) (hd :: tl)))) /\
    global_snake_direction (self st') = d /\
    (done r = true <->
       wall_collision (move_head d hd) \/ self_collision (move_head d hd) tl' \/
       win (move_head d hd :: tl')) /\
    log st' = log st ++ (if done r then [Warn_step_after_done] else []).
Proof.
  intros Hstep d.
  destruct (step_trace _ _ _ _ _ _ Hstep)
    as [(_ & Ho & _) | [(_ & _ & Ho & _) | (_ & Hne & o3 & st3 & Hloop & Hend)]];
    try discriminate.
  destruct Hend as [(_ & Ho & _) | (_ & r' & Hr & ->)]; [discriminate|].
  injection Hr as <-.
  destruct (snake (self st)) as [|hd tl] eqn:Hs; [contradiction|].
  destruct (ate_loop_extends _ _ _ _ _ _ Hloop) as (_ & n & Hbody & _ & Hd & _ & Hl & _).
  simpl in Hbody, Hd, Hl. rewrite advanced_closed in Hbody.
  exists hd, tl, n. eexists. split; [reflexivity|].
  split; [exact Hbody|]. split; [reflexivity|]. split; [exact Hd|].
  split; [|simpl; rewrite Hl; reflexivity].
  destruct (step_returned _ _ _ _ _ _ Hstep)
    as (s2 & s3 & hd3 & tl3 & ob & _ & _ & _ & Hs3 & _ & Hdone & _ & _ & Hst').
  assert (Hsame : snake (self s3) = snake (self st3)).
  { apply (f_equal (fun s => snake (self s))) in Hst'. simpl in Hst'. congruence. }
  rewrite Hsame, Hbody in Hs3. simpl in Hs3. injection Hs3 as <- <-.
  exact Hdone.
Qed.

(** X14. No way back in one step. A head that a move takes off the grid
    is off the grid on the side the heading points to; and from a store whose
    head is off the grid on that side, every valid action that returns gives
    done again, with the head still off the grid, and logs the warning. *)
Theorem wall_stays_out (rng : nat -> Z) (fuel : nat) (action : Z)
    (st st' : Store) (r : StepResult) (hd : Position) (tl : list Position) :
  (0 <= action <= 2)%Z ->
  snake (self st) = hd :: tl ->
  left_through (global_snake_direction (self st)) hd ->
  step rng fuel action st = (Returned r, st') ->
  (forall d p, heading_code d -> in_grid p -> ~ in_grid (move_head d p) ->
               left_through d (move_head d p)) /\
  done r = true /\
  (exists hd' tl', snake (self st') = hd' :: tl' /\ wall_collision hd') /\
  log st' = log st ++ [Warn_step_after_done].
Proof.
  intros Hact Hs Hleft Hstep. split.
  { intros d p Hd Hin Hout. unfold left_through, in_grid, heading_code, move_head in *.
    repeat case_decide; simpl in *; lia. }
  destruct (step_returned_facts _ _ _ _ _ _ Hstep)
    as (hd0 & tl0 & n & tl' & Hs0 & Hs' & _ & _ & Hdone & Hlog).
  rewrite Hs in Hs0. injection Hs0 as <- <-.
  assert (Hwall : wall_collision
            (move_head (relative_to_global_direction
                          (global_snake_direction (self st)) action) hd)).
  { unfold left_through in Hleft.
    unfold wall_collision, relative_to_global_direction, move_head.
    repeat case_decide; simpl; lia. }
  assert (Hd : done r = true) by (apply Hdone; left; exact Hwall).
  split; [exact Hd|]. split; [eauto|].
  rewrite Hlog, Hd. reflexivity.
Qed.

Lemma wall_stays_out_witness :
  let st := mkStore (mkWorld [(7, 15); (7, 14)]%Z (0, 0)%Z 1 []) 0 [] in
  exists r st',
    (0 <= 0 <= 2)%Z /\
    snake (self st) = [(7, 15); (7, 14)]%Z /\
    left_through (global_snake_direction (self st)) (7, 15)%Z /\
    step far_rng 3 0 st = (Returned r, st') /\
    done r = true.
Proof.
  intros st. eexists. eexists.
  assert (Hleft : left_through (global_snake_direction (self st)) (7, 15)%Z)
    by (right; left; split; [reflexivity | simpl; lia]).
  split; [lia|]. split; [reflexivity|]. split; [exact Hleft|].
  split; [vm_compute; reflexivity|].
  edestruct (wall_stays_out far_rng 3 0 st) as (_ & Hd & _);
    [ | | exact Hleft | vm_compute; reflexivity | exact Hd];
    [lia | reflexivity].
Defined.

(** ** Sensors: what a ray measures *)

Lemma ray_tile_1 (pos : Position) (y x : Z) :
  ray_tile pos y x 1 = (pos.1 + y, pos.2 + x)%Z.
Proof. unfold ray_tile. f_equal; lia. Qed.

Lemma ray_tile_succ (pos : Position) (y x k : Z) :
  ray_tile (pos.1 + y, pos.2 + x)%Z y x k = ray_tile pos y x (k + 1).
Proof. unfold ray_tile. simpl. f_equal; lia. Qed.

(** The loop counts the tiles before the first hit, up to 14: none of the
    first [v - d] tiles is a hit, and unless the count reached its cap the
    next tile is one. *)
Lemma ray_loop_spec (hit : Position -> bool) (more : nat) (d : Z)
    (pos : Position) (y x : Z) :
  let v := ray_loop hit more d pos y x in
  (d <= v <= d + Z.of_nat more)%Z /\
  (forall k, (1 <= k <= v - d)%Z -> hit (ray_tile pos y x k) = false) /\
  ((v < d + Z.of_nat more)%Z -> hit (ray_tile pos y x (v - d + 1)) = true).
Proof.
  revert d pos. induction more as [|more IH]; intros d pos; simpl.
  - destruct (hit (pos.1 + y, pos.2 + x)%Z) eqn:Hh;
      (split; [lia|]); (split; [intros k Hk; lia|]); intros Hv; lia.
  - destruct (hit (pos.1 + y, pos.2 + x)%Z) eqn:Hh.
    + split; [lia|]. split; [intros k Hk; lia|]. intros _.
      replace (d - d + 1)%Z with 1%Z by lia. rewrite ray_tile_1. exact Hh.
    + destruct (IH (d + 1)%Z (pos.1 + y, pos.2 + x)%Z) as (Hb & Hmiss & Hhit).
      split; [lia|]. split.
      * intros k Hk. destruct (decide (k = 1%Z)) as [->|Hk1].
        -- rewrite ray_tile_1. exact Hh.
        -- replace k with ((k - 1) + 1)%Z by lia. rewrite <- ray_tile_succ.
           apply Hmiss. lia.
      * intros Hv.
        match goal with |- hit (ray_tile pos y x ?k) = true =>
          replace k with ((k - 1) + 1)%Z by lia end.
        rewrite <- ray_tile_succ.
        match goal with |- hit (ray_tile _ y x ?k) = true =>
          match type of Hhit with _ -> hit (ray_tile _ y x ?k') = true =>
            replace k with k' by lia end end.
        apply Hhit. lia.
Qed.

(** X15. What an apple ray measures. On a non-empty body the call appends
    one value v in 0..14 and changes nothing else; none of the first v tiles
    along the offset holds the apple, and when v is below 14 the next tile,
    v + 1 steps from the head, is the apple's. *)
Theorem apple_ray_first_apple (st : Store) (hd : Position) (tl : list Position)
    (obs : list Z) (y x : Z) :
  snake (self st) = hd :: tl ->
  exists v,
    apple_ray obs y x st = (Returned (obs ++ [v]), st) /\
    (0 <= v <= 14)%Z /\
    (forall k, (1 <= k <= v)%Z -> ray_tile hd y x k <> apple (self st)) /\
    ((v < 14)%Z -> ray_tile hd y x (v + 1) = apple (self st)).
Proof.
  intros Hs. eexists. split.
  { unfold apple_ray. rewrite (bind_returned _ _ _ _ _ (head_piece_run _ _ _ Hs)).
    reflexivity. }
  destruct (ray_loop_spec (fun p => bool_decide (p = apple (self st))) 14 0 hd y x)
    as (Hb & Hmiss & Hhit).
  split; [lia|]. split.
  - intros k Hk. specialize (Hmiss k ltac:(lia)).
    apply bool_decide_eq_false in Hmiss. exact Hmiss.
  - intros Hv. specialize (Hhit ltac:(lia)).
    apply bool_decide_eq_true in Hhit.
    match goal with |- ray_tile hd y x ?k = _ =>
      match type of Hhit with ray_tile hd y x ?k' = _ =>
        replace k with k' by lia end end.
    exact Hhit.
Qed.

Lemma apple_ray_first_apple_witness :
  snake (self (play far_rng 0 [])) = [(7, 4); (7, 3)]%Z /\
  exists v,
    apple_ray [] 0 1 (play far_rng 0 []) = (Returned ([] ++ [v]), play far_rng 0 []) /\
    ((v < 14)%Z -> ray_tile (7, 4)%Z 0 1 (v + 1) = (7, 11)%Z).
Proof.
  split; [reflexivity|].
  destruct (apple_ray_first_apple (play far_rng 0 []) (7, 4)%Z [(7, 3)%Z] [] 0 1
              eq_refl) as (v & Hrun & _ & _ & Hhit).
  exists v. split; [exact Hrun | exact Hhit].
Defined.

(** X16. What a wall ray measures. With the head on the grid and an offset
    of row and column steps in -1, 0, 1, the value appended is the number of
    tiles the ray crosses before leaving the grid, capped at 14: the smaller
    of the room along the rows and the room along the columns. Straight up it
    is the head's row, straight left its column, down and right 14 minus
    them. *)
Theorem wall_ray_room (st : Store) (hd : Position) (tl : list Position)
    (obs : list Z) (y x : Z) :
  snake (self st) = hd :: tl ->
  in_grid hd ->
  (-1 <= y <= 1)%Z -> (-1 <= x <= 1)%Z ->
  wall_ray obs y x st =
    (Returned (obs ++ [Z.min (room y hd.1) (room x hd.2)]), st).
Proof.
  intros Hs [Hr Hc] Hy Hx.
  unfold wall_ray. rewrite (bind_returned _ _ _ _ _ (head_piece_run _ _ _ Hs)).
  unfold ret. do 4 f_equal.
  match goal with |- ray_loop ?h _ _ _ _ _ = _ =>
    destruct (ray_loop_spec h 14 0 hd y x) as (Hb & Hmiss & Hhit);
    set (v := ray_loop h 14 0 hd y x) in * end.
  assert (Hin : forall k, (1 <= k <= v)%Z ->
                 (0 <= hd.1 + k * y <= 14 /\ 0 <= hd.2 + k * x <= 14)%Z).
  { intros k Hk. specialize (Hmiss k ltac:(lia)).
    apply bool_decide_eq_false in Hmiss. unfold ray_tile in Hmiss.
    simpl in Hmiss. lia. }
  assert (Hout : (v < 14)%Z ->
            (hd.1 + (v + 1) * y < 0 \/ hd.1 + (v + 1) * y > 14 \/
             hd.2 + (v + 1) * x < 0 \/ hd.2 + (v + 1) * x > 14)%Z).
  { intros Hv. specialize (Hhit ltac:(lia)).
    apply bool_decide_eq_true in Hhit. unfold ray_tile in Hhit. simpl in Hhit.
    replace (v - 0 + 1)%Z with (v + 1)%Z in Hhit by lia. exact Hhit. }
  assert (Hv0 : (v = 0 \/ 1 <= v)%Z) by lia.
  assert (y = -1 \/ y = 0 \/ y = 1)%Z as Hycases by lia.
  assert (x = -1 \/ x = 0 \/ x = 1)%Z as Hxcases by lia.
  unfold room.
  destruct Hycases as [-> | [-> | ->]], Hxcases as [-> | [-> | ->]];
    repeat case_decide; try lia;
    (destruct (decide (v < 14)%Z) as [Hlt|Hge];
     [specialize (Hout Hlt) | clear Hout]);
    (destruct Hv0 as [Hz|Hpos];
     [clear Hin | specialize (Hin v ltac:(lia))]); lia.
Qed.

Lemma wall_ray_room_witness :
  snake (self (play far_rng 0 [])) = [(7, 4); (7, 3)]%Z /\
  in_grid (7, 4)%Z /\
  wall_ray [] (-1) (-1) (play far_rng 0 []) = (Returned [4%Z], play far_rng 0 []).
Proof.
  assert (Hg : in_grid (7, 4)%Z) by (unfold in_grid; simpl; lia).
  split; [reflexivity|]. split; [exact Hg|].
  apply (wall_ray_room (play far_rng 0 []) (7, 4)%Z [(7, 3)%Z] [] (-1) (-1)
           eq_refl Hg); lia.
Defined.

(** X17. What a body ray measures. On a body [hd :: tl] the call appends
    one value v in 0..14 and changes nothing else; none of the first v tiles
    along the offset holds a piece of [tl], and when v is below 14 the next
    tile does. The head itself is not looked for. *)
Theorem snake_piece_ray_first_piece (st : Store) (hd : Position)
    (tl : list Position) (obs : list Z) (y x : Z) :
  snake (self st) = hd :: tl ->
  exists v,
    snake_piece_ray obs y x st = (Returned (obs ++ [v]), st) /\
    (0 <= v <= 14)%Z /\
    (forall k, (1 <= k <= v)%Z -> ray_tile hd y x k ∉ tl) /\
    ((v < 14)%Z -> ray_tile hd y x (v + 1) ∈ tl).
Proof.
  intros Hs. exists (ray_loop (fun p => bool_decide (p ∈ tl)) 14 0 hd y x).
  split.
  { unfold snake_piece_ray.
    rewrite (bind_returned _ _ _ _ _ (head_piece_run _ _ _ Hs)).
    unfold bind, get_self, ret. rewrite Hs. reflexivity. }
  destruct (ray_loop_spec (fun p => bool_decide (p ∈ tl)) 14 0 hd y x)
    as (Hb & Hmiss & Hhit).
  split; [lia|]. split.
  - intros k Hk. specialize (Hmiss k ltac:(lia)).
    apply bool_decide_eq_false in Hmiss. exact Hmiss.
  - intros Hv. specialize (Hhit ltac:(lia)).
    apply bool_decide_eq_true in Hhit.
    match goal with |- ray_tile hd y x ?k ∈ _ =>
      match type of Hhit with ray_tile hd y x ?k' ∈ _ =>
        replace k with k' by lia end end.
    exact Hhit.
Qed.

Lemma snake_piece_ray_first_piece_witness :
  snake (self (play far_rng 0 [])) = [(7, 4); (7, 3)]%Z /\
  exists v,
    snake_piece_ray [] 0 (-1) (play far_rng 0 []) =
      (Returned ([] ++ [v]), play far_rng 0 []) /\
    (0 <= v <= 14)%Z.
Proof.
  split; [reflexivity|].
  destruct (snake_piece_ray_first_piece (play far_rng 0 []) (7, 4)%Z [(7, 3)%Z]
              [] 0 (-1) eq_refl) as (v & Hrun & Hb & _).
  exists v. split; [exact Hrun | exact Hb].
Defined.

(** ** Rotation: more facts *)

Lemma rotate_inj (l1 l2 : list Z) (n : nat) :
  rotate l1 n = rotate l2 n -> l1 = l2.
Proof.
  intros H.
  assert (Hlen : length l1 = length l2)
    by (rewrite <- (rotate_length l1 n), <- (rotate_length l2 n), H; reflexivity).
  unfold rotate in H. rewrite Hlen in H.
  apply app_inj_1 in H as [Hd Ht];
    [| rewrite !length_drop, Hlen; reflexivity].
  transitivity (take (length l2 - n) l1 ++ drop (length l2 - n) l1);
    [symmetry; apply take_drop|].
  rewrite Hd, Ht. apply take_drop.
Qed.

(** X18. [rotate l n] for n up to the length of l moves every value n
    places to the right, the last n values wrapping to the front: entry i is
    the old entry i - n, or the old entry i + len - n when i < n. It only
    reorders the values, and rotating on by len - n gives l back. *)
Theorem rotate_shifts_right (l : list Z) (n : nat) :
  n <= length l ->
  (forall i, i < n -> rotate l n !! i = l !! (length l - n + i)) /\
  (forall i, n <= i < length l -> rotate l n !! i = l !! (i - n)) /\
  rotate l n ≡ₚ l /\
  rotate (rotate l n) (length l - n) = l.
Proof.
  intros Hn. unfold rotate at 1 2 3.
  split.
  { intros i Hi. rewrite lookup_app_l by (rewrite length_drop; lia).
    apply lookup_drop. }
  split.
  { intros i Hi. rewrite lookup_app_r by (rewrite length_drop; lia).
    rewrite length_drop, lookup_take_lt by lia. f_equal. lia. }
  split.
  { rewrite Permutation_app_comm, take_drop. reflexivity. }
  unfold rotate. rewrite length_app, length_drop, length_take.
  replace (length l - (length l - n) + min (length l - n) (length l)
           - (length l - n)) with n by lia.
  rewrite drop_app_length', take_app_length' by (rewrite length_drop; lia).
  apply take_drop.
Qed.

Lemma rotate_shifts_right_witness :
  2 <= length [0; 1; 2; 3; 4; 5; 6; 7]%Z /\
  rotate [0; 1; 2; 3; 4; 5; 6; 7]%Z 2 !! 0 = Some 6%Z /\
  rotate (rotate [0; 1; 2; 3; 4; 5; 6; 7]%Z 2) 6 = [0; 1; 2; 3; 4; 5; 6; 7]%Z.
Proof.
  assert (H : 2 <= length [0; 1; 2; 3; 4; 5; 6; 7]%Z) by (simpl; lia).
  split; [exact H|].
  destruct (rotate_shifts_right [0; 1; 2; 3; 4; 5; 6; 7]%Z 2 H)
    as (Hlow & _ & _ & Hback).
  split; [exact (Hlow 0 ltac:(lia)) | exact Hback].
Defined.

(** X19. The egocentric rotation loses nothing: under every heading and on
    every vector it returns, leaves the store alone, gives a reordering of
    the input of the same length, and two inputs rotated to the same result
    are equal. *)
Theorem rotate_obs_bijective (st : Store) (obs : list Z) :
  exists obs',
    rotate_obs obs st = (Returned obs', st) /\
    obs' ≡ₚ obs /\
    length obs' = length obs /\
    (forall other, rotate_obs other st = (Returned obs', st) -> other = obs).
Proof.
  assert (Hperm : forall n, rotate obs n ≡ₚ obs).
  { intros n. unfold rotate. rewrite Permutation_app_comm, take_drop. reflexivity. }
  unfold rotate_obs, bind, get_self.
  repeat case_decide; eexists; (split; [reflexivity|]);
    (split; [first [reflexivity | apply Hperm]|]);
    (split; [first [reflexivity | apply rotate_length]|]);
    intros other Hother; unfold ret in Hother; injection Hother as Hother;
    first [exact Hother | exact (rotate_inj _ _ _ Hother)].
Qed.

(** ** Observations: more facts *)

Lemma rotate_obs_for (obs : list Z) (st : Store) :
  rotate_obs obs st =
    (Returned (rotate_for (global_snake_direction (self st)) obs), st).
Proof.
  unfold rotate_obs, rotate_for, bind, get_self. repeat case_decide; reflexivity.
Qed.

(** Eight rays of a method that appends [value o] for the offset [o]. *)
Lemma eight_rays_values (ray : list Z -> Z -> Z -> M (list Z))
    (value : Position -> Z) (st : Store) :
  (forall obs y x, ray obs y x st = (Returned (obs ++ [value (y, x)]), st)) ->
  eight_rays ray st =
    (Returned (rotate_for (global_snake_direction (self st))
                 (map value ray_offsets)), st).
Proof.
  intros Hray. unfold eight_rays.
  repeat (rewrite (bind_returned _ _ _ _ _ (Hray _ _ _))).
  rewrite rotate_obs_for. reflexivity.
Qed.

Lemma generate_state_closed (st : Store) (hd : Position) (tl : list Position) :
  snake (self st) = hd :: tl ->
  generate_state st =
    (Returned tt, with_self (set_state (observe (self st) hd)) st).
Proof.
  intros Hs.
  assert (Ha : forall obs y x,
             apple_ray obs y x st =
               (Returned (obs ++ [cast (apple_hit (self st)) hd (y, x)]), st)).
  { intros. unfold apple_ray.
    rewrite (bind_returned _ _ _ _ _ (head_piece_run _ _ _ Hs)).
    unfold bind, get_self, ret, cast, apple_hit. cbn [fst snd]. reflexivity. }
  assert (Hw : forall obs y x,
             wall_ray obs y x st =
               (Returned (obs ++ [cast wall_hit hd (y, x)]), st)).
  { intros. unfold wall_ray.
    rewrite (bind_returned _ _ _ _ _ (head_piece_run _ _ _ Hs)).
    unfold ret, cast, wall_hit. cbn [fst snd]. reflexivity. }
  assert (Hp : forall obs y x,
             snake_piece_ray obs y x st =
               (Returned (obs ++ [cast (piece_hit (self st)) hd (y, x)]), st)).
  { intros. unfold snake_piece_ray.
    rewrite (bind_returned _ _ _ _ _ (head_piece_run _ _ _ Hs)).
    unfold bind, get_self, ret, cast, piece_hit. cbn [fst snd]. reflexivity. }
  unfold generate_state, apple_ray_observation, wall_ray_observation,
    snake_piece_ray_observation.
  unfold bind at 1, get_self.
  rewrite (bind_returned _ _ _ _ _
             (eight_rays_values apple_ray (cast (apple_hit (self st)) hd) st Ha)).
  rewrite (bind_returned _ _ _ _ _
             (eight_rays_values wall_ray (cast wall_hit hd) st Hw)).
  rewrite (bind_returned _ _ _ _ _
             (eight_rays_values snake_piece_ray (cast (piece_hit (self st)) hd) st Hp)).
  unfold modify_self, observe, sense. rewrite <- app_assoc. reflexivity.
Qed.

(** X20. The observation in closed form. On a body with head [hd],
    [generate_state] returns and stores the body length followed by the apple,
    wall and body channels, each the eight rays cast from the head in the
    order up, up-right, right, ... and rotated for the heading; nothing but
    the stored observation changes. The vector is a function of body, apple
    and heading alone (the previous observation does not enter it), so
    computing it twice gives what computing it once gives. *)
Theorem generate_state_observe (st : Store) (hd : Position) (tl : list Position) :
  snake (self st) = hd :: tl ->
  generate_state st =
    (Returned tt, with_self (set_state (observe (self st) hd)) st) /\
  (forall o, observe (set_state o (self st)) hd = observe (self st) hd) /\
  bind generate_state (fun _ => generate_state) st = generate_state st.
Proof.
  intros Hs. pose proof (generate_state_closed st hd tl Hs) as Hrun.
  split; [exact Hrun|].
  assert (Hframe : forall o, observe (set_state o (self st)) hd
                             = observe (self st) hd).
  { intros o. unfold observe, apple_hit, piece_hit, set_state.
    cbn [snake apple global_snake_direction]. reflexivity. }
  split; [exact Hframe|].
  rewrite (bind_returned _ _ _ _ _ Hrun), Hrun.
  rewrite (generate_state_closed
             (with_self (set_state (observe (self st) hd)) st) hd tl Hs).
  unfold with_self. cbn [self cursor log]. rewrite Hframe.
  unfold set_state. cbn [snake apple global_snake_direction state]. reflexivity.
Qed.

Lemma generate_state_observe_witness :
  let st := mkStore (mkWorld [(7, 4); (7, 3)]%Z (7, 11)%Z 1 []) 0 [] in
  snake (self st) = [(7, 4); (7, 3)]%Z /\
  generate_state st =
    (Returned tt,
     with_self (set_state [2; 14; 14; 14; 14; 6; 14; 14; 14;
                           4; 4; 7; 7; 10; 7; 7; 4;
                           0; 14; 14; 14; 14; 14; 14; 14]%Z) st).
Proof.
  intros st. split; [reflexivity|].
  destruct (generate_state_observe st (7, 4)%Z [(7, 3)%Z] eq_refl) as (Hrun & _).
  rewrite Hrun. vm_compute. reflexivity.
Defined.

(** Witnesses for the facts on returning steps. *)

Lemma step_reward_witness :
  exists r st',
    step far_rng 4 1 (play far_rng 3 approach) = (Returned r, st') /\
    reward r = (if done r then 0 else 1)%Z.
Proof.
  eexists. eexists. split; [vm_compute; reflexivity|].
  eapply (step_reward far_rng 4 1 (play far_rng 3 approach)).
  vm_compute. reflexivity.
Defined.

Lemma step_warns_iff_done_witness :
  exists r st',
    step (tail_rng 2) 8 1 (play (tail_rng 2) 8 collision_actions) = (Returned r, st') /\
    log st' = log (play (tail_rng 2) 8 collision_actions)
              ++ (if done r then [Warn_step_after_done] else []).
Proof.
  eexists. eexists. split; [vm_compute; reflexivity|].
  eapply (step_warns_iff_done (tail_rng 2) 8 1).
  vm_compute. reflexivity.
Defined.

(** ** Rendering: facts *)

Lemma metadata_render_fps : metadata !! "render_fps"%string = None.
Proof. vm_compute. reflexivity. Qed.

Lemma metadata_frames_per_second :
  metadata !! "video.frames_per_second"%string = Some (Meta_int 10).
Proof. vm_compute. reflexivity. Qed.

Lemma human_is_human : bool_decide ("human"%string = "human"%string) = true.
Proof. apply bool_decide_eq_true_2. reflexivity. Qed.

Lemma tile_rect_40 (p : Position) :
  tile_rect 40 p = mkRect (40 * p.2) (40 * p.1) 40 40.
Proof. unfold tile_rect. f_equal; lia. Qed.

Lemma render_human_run (w : World) (dsp : Display) :
  render "human" (Some w) dsp =
    (Render_KeyError "render_fps", mkDisplay true true,
     ((if window dsp then []
       else [Pygame_init; Display_init; Display_set_mode 600 600])
      ++ (if clock dsp then [] else [Clock_new])
      ++ render_background 600 600 ++ render_snake_pieces 40 w
      ++ render_apple 40 w)
     ++ [Window_blit; Event_pump; Display_update]).
Proof.
  unfold render. rewrite metadata_render_fps, human_is_human, !andb_true_r.
  destruct dsp as [[|] [|]]; reflexivity.
Qed.

(** X25. In human mode [render] never gets to the end. On every world
    and whatever the display state, it makes exactly these calls: the three
    that open the window if there is none, the one that makes the clock if
    there is none, the 600 x 600 canvas filled black, one green 40 x 40
    square per body piece in body order, the red square of the apple, then
    blit, event pump and display update; window and clock are set afterwards.
    Then the lookup of [render_fps] in [metadata], which holds no such key,
    raises [KeyError]: the clock is never ticked. *)
Theorem render_human_raises_KeyError (w : World) (dsp : Display) :
  let calls :=
    (if window dsp then []
     else [Pygame_init; Display_init; Display_set_mode 600 600])
    ++ (if clock dsp then [] else [Clock_new])
    ++ [Surface_new 600 600; Canvas_fill Black]
    ++ map (fun p => Draw_rect Green (mkRect (40 * p.2) (40 * p.1) 40 40)) (snake w)
    ++ [Draw_rect Red (mkRect (40 * (apple w).2) (40 * (apple w).1) 40 40);
        Window_blit; Event_pump; Display_update] in
  render "human" (Some w) dsp =
    (Render_KeyError "render_fps", mkDisplay true true, calls) /\
  (forall fps, Clock_tick fps ∉ calls) /\
  metadata !! "render_fps"%string = None /\
  metadata !! "video.frames_per_second"%string = Some (Meta_int 10).
Proof.
  intros calls. subst calls.
  split.
  { rewrite render_human_run.
    unfold render_background, render_snake_pieces, render_apple.
    rewrite tile_rect_40.
    rewrite (map_ext _ (fun p => Draw_rect Green (mkRect (40 * p.2) (40 * p.1) 40 40)))
      by (intros p; rewrite tile_rect_40; reflexivity).
    rewrite <- !app_assoc. reflexivity. }
  split; [| split; [exact metadata_render_fps | exact metadata_frames_per_second]].
  intros fps Hin.
  rewrite !elem_of_app, list_elem_of_fmap in Hin.
  destruct Hin as [Hin | [Hin | [Hin | [(p & Hin & _) | Hin]]]].
  - destruct (window dsp); rewrite ?elem_of_cons in Hin;
      [inversion Hin | destruct Hin as [H | [H | [H | H]]];
                       try discriminate; inversion H].
  - destruct (clock dsp); rewrite ?elem_of_cons in Hin;
      [inversion Hin | destruct Hin as [H | H]; try discriminate; inversion H].
  - rewrite !elem_of_cons in Hin.
    destruct Hin as [H | [H | H]]; try discriminate; inversion H.
  - discriminate.
  - rewrite !elem_of_cons in Hin.
    destruct Hin as [H | [H | [H | [H | H]]]]; try discriminate; inversion H.
Qed.

(** X26. Outside human mode [render] is headless. Before the first [reset]
    it returns [None] and calls nothing. Afterwards, for every mode other
    than human, it returns the frame and leaves the display state alone: a
    600 x 600 canvas filled black, one green 40 x 40 square per body piece in
    body order with its corner at (40 * column, 40 * row), the red square of
    the apple drawn last; a square of a tile of the grid lies within the
    canvas; and [close] after it has nothing to close unless a window was
    already open. *)
Theorem render_rgb_array (mode : string) (w : World) (dsp : Display) :
  mode <> "human"%string ->
  render mode None dsp = (Render_none, dsp, []) /\
  render mode (Some w) dsp =
    (Render_frame, dsp,
     [Surface_new 600 600; Canvas_fill Black]
       ++ map (fun p => Draw_rect Green (mkRect (40 * p.2) (40 * p.1) 40 40)) (snake w)
       ++ [Draw_rect Red (mkRect (40 * (apple w).2) (40 * (apple w).1) 40 40);
           Pixels3d]) /\
  (forall p, in_grid p ->
     (0 <= rect_left (tile_rect 40 p) /\
      rect_left (tile_rect 40 p) + rect_width (tile_rect 40 p) <= 600 /\
      0 <= rect_top (tile_rect 40 p) /\
      rect_top (tile_rect 40 p) + rect_height (tile_rect 40 p) <= 600)%Z) /\
  (window dsp = false -> close (snd (fst (render mode (Some w) dsp))) = []).
Proof.
  intros Hmode.
  assert (Hrun : render mode (Some w) dsp =
    (Render_frame, dsp,
     [Surface_new 600 600; Canvas_fill Black]
       ++ map (fun p => Draw_rect Green (mkRect (40 * p.2) (40 * p.1) 40 40)) (snake w)
       ++ [Draw_rect Red (mkRect (40 * (apple w).2) (40 * (apple w).1) 40 40);
           Pixels3d])).
  { unfold render. rewrite (bool_decide_eq_false_2 _ Hmode), !andb_false_r.
    unfold render_background, render_snake_pieces, render_apple.
    rewrite tile_rect_40.
    rewrite (map_ext _ (fun p => Draw_rect Green (mkRect (40 * p.2) (40 * p.1) 40 40)))
      by (intros p; rewrite tile_rect_40; reflexivity).
    change (40 * 15)%Z with 600%Z.
    cbv iota beta. rewrite !app_nil_l, <- !app_assoc. reflexivity. }
  split; [reflexivity|]. split; [exact Hrun|]. split.
  - intros p [Hr Hc]. rewrite tile_rect_40.
    unfold rect_left, rect_top, rect_width, rect_height. lia.
  - intros Hw. rewrite Hrun. unfold close, snd, fst. rewrite Hw. reflexivity.
Qed.

Lemma render_rgb_array_witness :
  "rgb_array"%string <> "human"%string /\
  render "rgb_array" (Some (mkWorld [(7, 4); (7, 3)]%Z (7, 11)%Z 1 []))
    (mkDisplay false false) =
    (Render_frame, mkDisplay false false,
     [Surface_new 600 600; Canvas_fill Black;
      Draw_rect Green (mkRect 160 280 40 40);
      Draw_rect Green (mkRect 120 280 40 40);
      Draw_rect Red (mkRect 440 280 40 40);
      Pixels3d]).
Proof.
  assert (H : "rgb_array"%string <> "human"%string) by discriminate.
  split; [exact H|].
  destruct (render_rgb_array "rgb_array" (mkWorld [(7, 4); (7, 3)]%Z (7, 11)%Z 1 [])
              (mkDisplay false false) H) as (_ & Hrun & _).
  rewrite Hrun. reflexivity.
Defined.

(** ** Sensors: the apple channel *)

Lemma cast_apple_hit (w : World) (hd o : Position) :
  let v := cast (apple_hit w) hd o in
  (0 <= v <= 14)%Z /\
  ((v < 14)%Z ->
   (apple w).1 = (hd.1 + (v + 1) * o.1)%Z /\
   (apple w).2 = (hd.2 + (v + 1) * o.2)%Z).
Proof.
  unfold cast.
  destruct (ray_loop_spec (apple_hit w) 14 0 hd o.1 o.2) as (Hb & _ & Hhit).
  split; [lia|]. intros Hv. specialize (Hhit ltac:(lia)).
  unfold apple_hit in Hhit. apply bool_decide_eq_true in Hhit.
  unfold ray_tile in Hhit. rewrite Z.sub_0_r in Hhit. rewrite <- Hhit.
  split; reflexivity.
Qed.

Lemma apple_ray_observation_sense (st : Store) (hd : Position) (tl : list Position) :
  snake (self st) = hd :: tl ->
  apple_ray_observation st =
    (Returned (sense (apple_hit (self st)) (global_snake_direction (self st)) hd),
     st).
Proof.
  intros Hs. unfold apple_ray_observation, sense.
  apply (eight_rays_values apple_ray (cast (apple_hit (self st)) hd) st).
  intros. unfold apple_ray.
  rewrite (bind_returned _ _ _ _ _ (head_piece_run _ _ _ Hs)).
  unfold bind, get_self, ret, cast, apple_hit. cbn [fst snd]. reflexivity.
Qed.

Lemma apple_channel_one_below_14 (w : World) (d : Z) (hd : Position) :
  length (filter (fun v => (v < 14)%Z) (sense (apple_hit w) d hd)) <= 1.
Proof.
  assert (Hperm : sense (apple_hit w) d hd ≡ₚ map (cast (apple_hit w) hd) ray_offsets).
  { unfold sense, rotate_for.
    assert (Hrot : forall l n, rotate l n ≡ₚ l).
    { intros l n. unfold rotate. rewrite Permutation_app_comm, take_drop. reflexivity. }
    repeat case_decide; rewrite ?Hrot; reflexivity. }
  rewrite Hperm. unfold ray_offsets. cbn [map].
  pose proof (cast_apple_hit w hd (-1, 0)%Z) as H0.
  pose proof (cast_apple_hit w hd (-1, 1)%Z) as H1.
  pose proof (cast_apple_hit w hd (0, 1)%Z) as H2.
  pose proof (cast_apple_hit w hd (1, 1)%Z) as H3.
  pose proof (cast_apple_hit w hd (1, 0)%Z) as H4.
  pose proof (cast_apple_hit w hd (1, -1)%Z) as H5.
  pose proof (cast_apple_hit w hd (0, -1)%Z) as H6.
  pose proof (cast_apple_hit w hd (-1, -1)%Z) as H7.
  cbv zeta in H0, H1, H2, H3, H4, H5, H6, H7.
  cbn [fst snd] in H0, H1, H2, H3, H4, H5, H6, H7.
  generalize dependent (cast (apple_hit w) hd (-1, 0)%Z).
  generalize dependent (cast (apple_hit w) hd (-1, 1)%Z).
  generalize dependent (cast (apple_hit w) hd (0, 1)%Z).
  generalize dependent (cast (apple_hit w) hd (1, 1)%Z).
  generalize dependent (cast (apple_hit w) hd (1, 0)%Z).
  generalize dependent (cast (apple_hit w) hd (1, -1)%Z).
  generalize dependent (cast (apple_hit w) hd (0, -1)%Z).
  generalize dependent (cast (apple_hit w) hd (-1, -1)%Z).
  intros v7 H7 v6 H6 v5 H5 v4 H4 v3 H3 v2 H2 v1 H1 v0 H0.
  rewrite !filter_cons, filter_nil.
  repeat case_decide; simpl; lia.
Qed.

(** X27. The apple shows on at most one ray: on every non-empty body,
    wherever the apple and whatever the heading, [apple_ray_observation]
    returns eight values of which at most one is below 14. *)
Theorem apple_on_one_ray_at_most (st : Store) (hd : Position) (tl : list Position) :
  snake (self st) = hd :: tl ->
  exists obs,
    apple_ray_observation st = (Returned obs, st) /\
    length obs = 8 /\
    length (filter (fun v => (v < 14)%Z) obs) <= 1.
Proof.
  intros Hs. eexists. split; [apply (apple_ray_observation_sense st hd tl Hs)|].
  split; [|apply apple_channel_one_below_14].
  unfold sense, rotate_for.
  repeat case_decide; rewrite ?rotate_length; reflexivity.
Qed.

Lemma apple_on_one_ray_at_most_witness :
  snake (self (play far_rng 0 [])) = [(7, 4); (7, 3)]%Z /\
  exists obs,
    apple_ray_observation (play far_rng 0 []) = (Returned obs, play far_rng 0 []) /\
    length (filter (fun v => (v < 14)%Z) obs) <= 1.
Proof.
  split; [reflexivity|].
  destruct (apple_on_one_ray_at_most (play far_rng 0 []) (7, 4)%Z [(7, 3)%Z] eq_refl)
    as (obs & Hrun & _ & Hone).
  exists obs. split; [exact Hrun | exact Hone].
Defined.

(** ** Observations: the layout of what [step] returns *)

Lemma sense_length (hit : Position -> bool) (d : Z) (hd : Position) :
  length (sense hit d hd) = 8.
Proof.
  unfold sense, rotate_for.
  repeat case_decide; rewrite ?rotate_length; reflexivity.
Qed.

Lemma sense_in_range (hit : Position -> bool) (d : Z) (hd : Position) :
  Forall in_ray_range (sense hit d hd).
Proof.
  assert (Hraw : Forall in_ray_range (map (cast hit hd) ray_offsets)).
  { apply Forall_forall. intros v Hv. apply list_elem_of_In, in_map_iff in Hv.
    destruct Hv as (o & <- & _). unfold cast, in_ray_range.
    pose proof (ray_loop_bounds hit 14 0 hd o.1 o.2). lia. }
  unfold sense, rotate_for.
  repeat case_decide; auto using rotate_Forall.
Qed.

(** X22. The layout of every observation a returning [step] gives. With
    [hd] the head of the body the step leaves, the vector is the length of
    that body, then the apple channel, then the wall channel, then the body
    channel, in this order; each channel is the eight rays cast from [hd]
    for its own target, in the order up, up-right, right, down-right, down,
    down-left, left, up-left, rotated for the heading the step leaves. Each
    channel has eight entries within 0..14, the vector has 25, and it is the
    observation the object keeps. *)
Theorem step_observation_layout (rng : nat -> Z) (fuel : nat) (action : Z)
    (st st' : Store) (r : StepResult) :
  step rng fuel action st = (Returned r, st') ->
  exists hd tl,
    snake (self st') = hd :: tl /\
    let d := global_snake_direction (self st') in
    let apples := rotate_for d (map (cast (apple_hit (self st')) hd) ray_offsets) in
    let walls := rotate_for d (map (cast wall_hit hd) ray_offsets) in
    let pieces := rotate_for d (map (cast (piece_hit (self st')) hd) ray_offsets) in
    observation r =
      Z.of_nat (length (snake (self st'))) :: apples ++ walls ++ pieces /\
    length apples = 8 /\ length walls = 8 /\ length pieces = 8 /\
    Forall in_ray_range apples /\ Forall in_ray_range walls /\
    Forall in_ray_range pieces /\
    length (observation r) = 25 /\
    state (self st') = observation r.
Proof.
  intros H.
  destruct (step_returned _ _ _ _ _ _ H)
    as (st2 & st3 & hd & tl & o & _ & _ & _ & Hs & Hgen & _ & _ & Hobs & ->).
  rewrite (generate_state_closed st3 hd tl Hs) in Hgen. injection Hgen as Ho.
  exists hd, tl. split; [exact Hs|].
  cbn [self snake apple global_snake_direction state set_state].
  fold (sense (apple_hit (set_state o (self st3)))
          (global_snake_direction (self st3)) hd).
  fold (sense wall_hit (global_snake_direction (self st3)) hd).
  fold (sense (piece_hit (set_state o (self st3)))
          (global_snake_direction (self st3)) hd).
  split.
  { rewrite Hobs, <- Ho. reflexivity. }
  split; [apply sense_length|]. split; [apply sense_length|].
  split; [apply sense_length|]. split; [apply sense_in_range|].
  split; [apply sense_in_range|]. split; [apply sense_in_range|].
  split; [|symmetry; exact Hobs].
  rewrite Hobs, <- Ho. unfold observe. simpl length.
  rewrite !length_app, !sense_length. reflexivity.
Qed.

Lemma step_observation_layout_witness :
  exists r st',
    step far_rng 3 1 (play far_rng 0 []) = (Returned r, st') /\
    snake (self st') = [(7, 5); (7, 4)]%Z /\
    observation r =
      [2; 14; 14; 14; 14; 5; 14; 14; 14;
       5; 5; 7; 7; 9; 7; 7; 5;
       0; 14; 14; 14; 14; 14; 14; 14]%Z.
Proof.
  destruct (step far_rng 3 1 (play far_rng 0 [])) as [o st'] eqn:Hstep.
  assert (Hv : (o, st') = step far_rng 3 1 (play far_rng 0 []))
    by (symmetry; exact Hstep).
  vm_compute in Hv. injection Hv as -> ->.
  eexists. eexists. split; [reflexivity|].
  destruct (step_observation_layout _ _ _ _ _ _ Hstep) as (hd & tl & Hs & Hobs & _).
  split; [reflexivity|].
  injection Hs as <- <-. rewrite Hobs. vm_compute. reflexivity.
Defined.
